(** * ESP32 visual theta entrainment: the frame loop of [src/main.cpp]

    A shallow embedding of the firmware's modulation maths, safety envelope,
    renderer and control flow, followed by the properties of its
    specification.

    Numbers.  The firmware computes in single-precision [float].  The
    embedding is written once over an interface [FloatArith] of the float
    operations the source uses (literals, [+ - * /], comparisons, the
    int/float conversions and the libm calls [sinf], [expf], [fabs],
    [fmodf]).  Everything about control flow, the LED buffer and the 8-bit
    colour channels is proved for every implementation of that interface.
    The statements that depend on the values of the arithmetic are proved
    for the instance [RealArith], which reads each operation as the exact
    operation on real numbers; they are stated so that rounding does not
    affect them.  Where rounding decides, the operations are evaluated in
    IEEE 754 binary32 (instance [Binary32Arith], over the Standard
    Library's [SpecFloat]). *)

From Stdlib Require Import ZArith List String Bool Reals Lra Lia.
From Stdlib Require Import Floats.SpecFloat.
From stdpp Require Import base list.
Import ListNotations.

Local Open Scope Z_scope.

(** ** The float operations used by the source *)

Class FloatArith := {
  F : Type;
  lit : Z -> Z -> F;            (* the decimal literal n/d, e.g. 5.8f = lit 58 10 *)
  of_int : Z -> F;              (* (float)i, also the integer promotions *)
  to_int : F -> Z;              (* (int)x: truncation toward zero *)
  fadd : F -> F -> F;
  fsub : F -> F -> F;
  fmul : F -> F -> F;
  fdiv : F -> F -> F;
  fopp : F -> F;               (* unary minus *)
  flt : F -> F -> bool;         (* x < y *)
  fle : F -> F -> bool;         (* x <= y *)
  sinf : F -> F;
  expf : F -> F;
  fabs : F -> F;
  fmodf : F -> F -> F;
  TWO_PI : F                    (* Arduino.h macro *)
}.

Declare Scope float_scope.
Delimit Scope float_scope with flt.
Bind Scope float_scope with F.
Notation "x + y" := (fadd x y) : float_scope.
Notation "x - y" := (fsub x y) : float_scope.
Notation "x * y" := (fmul x y) : float_scope.
Notation "x / y" := (fdiv x y) : float_scope.
Notation "- x" := (fopp x) : float_scope.
Notation "x <? y" := (flt x y) : float_scope.
Notation "x <=? y" := (fle x y) : float_scope.
Notation "x >? y" := (flt y x) : float_scope.

(** ** Pin settings and user-tunable parameters (main.cpp 31-84) *)

Definition LED_PIN : Z := 12.
Definition PANIC_PIN : Z := 14.
Definition NUM_LEDS : nat := 20.

Definition GLOBAL_BRIGHTNESS : Z := 70.
Definition FRAME_MS : Z := 10.
Definition REFLECTION_OFFSET : nat := 2.
Definition MICRO_ENABLED : bool := false.
Definition USE_SINUSOIDAL_MODULATION : bool := true.
Definition USE_PHASE_ENHANCEMENT : bool := true.

(** 8-bit colour triple of FastLED. *)
Record CRGB := mkCRGB { red : Z; green : Z; blue : Z }.

Definition Black : CRGB := mkCRGB 0 0 0.

(** Conversion to [uint8_t]: the value modulo 256.  (Where the source
    converts a [float] directly, C++ defines the result only for values
    that fit; the firmware's operands do.) *)
Definition to_u8 (v : Z) : Z := v mod 256.

(** Modelled from the spec: [qadd8] is FastLED library code, not part of
    the repository's sources.  The spec calls it saturating addition; in
    FastLED's words, add one byte to another, saturating at 0xFF. *)
Definition qadd8 (i j : Z) : Z :=
  let t := i + j in
  if t >? 255 then 255 else t.

(** main.cpp 110-114. *)
Definition safeClampInt (v : Z) : Z :=
  if v <? 0 then 0
  else if v >? 255 then 255
  else v.

(** main.cpp 241-243. *)
Definition spiralOrder : list nat :=
  [9;10;8;11;7;12;6;13;5;14;4;15;3;16;2;17;1;18;0;19]%nat.

(** [spiralOrder[i]] for an index inside the table. *)
Definition spiralAt (i : nat) : nat := default 0%nat (spiralOrder !! i).

Section Firmware.

Context {FA : FloatArith}.

Local Open Scope float_scope.

Definition f0 : F := lit 0 1.
Definition f1 : F := lit 1 1.

Definition LEFT_FREQ_HZ : F := lit 58 10.
Definition RIGHT_FREQ_HZ : F := lit 62 10.
Definition MICRO_FREQ_HZ : F := lit 45 1.
Definition BREATH_FREQ_HZ : F := lit 12 100.
Definition RAMP_IN_SECONDS : F := lit 180 1.
Definition MAX_SESSION_SECONDS : F := lit 1800 1.
Definition MODE_DURATION : F := lit 30 1.
Definition REFLECTION_DECAY : F := lit 35 100.
Definition PULSE_SHARPNESS : F := lit 25 10.
Definition PHASE_SYNC_STRENGTH : F := lit 15 100.

(** *** Safety utilities (main.cpp 116-124) *)

Definition clamp01 (v : F) : F :=
  if v <? f0 then f0 else if v >? f1 then f1 else v.

Definition clamp (v lo hi : F) : F :=
  if v <? lo then lo
  else if v >? hi then hi
  else v.

(** main.cpp 130-135; [micros] is the value read from [timerMicros]. *)
Definition getTimeSeconds (micros : Z) : F :=
  of_int micros * lit 1 1000000.

(** *** Modulation engine (main.cpp 137-178) *)

Definition phaseOf (t f : F) : F := fmodf (t * f) f1.

Definition getEnhancedPhase (t freq syncStrength : F) : F :=
  let basePhase := phaseOf t freq in
  if USE_PHASE_ENHANCEMENT && (syncStrength >? f0) then
    let correction := sinf (TWO_PI * basePhase) * syncStrength in
    fmodf (basePhase + correction) f1
  else basePhase.

Definition expPulse (phase sharpness : F) : F :=
  expf (- phase * sharpness).

Definition sinMod (t freq : F) : F :=
  let phase := t * freq in
  lit 5 10 * (f1 + sinf (TWO_PI * phase)).

Definition sinModSmooth (t freq : F) : F :=
  let phase := t * freq in
  let raw := sinf (TWO_PI * phase) in
  lit 5 10 * (f1 + raw).

(** *** Mandala and geometry masks (main.cpp 182-206) *)

Definition spiralMask (i : nat) (t speed : F) : F :=
  let pos := of_int (Z.of_nat i) / of_int (Z.of_nat NUM_LEDS) in
  let shift := fmodf (t * speed) f1 in
  let d := fabs (pos - shift) in
  let d := if d >? lit 5 10 then f1 - d else d in
  let m := f1 - d * lit 2 1 in
  clamp01 (m + lit 2 10).

Definition radialMask (i : nat) (t freq : F) (petals : Z) : F :=
  let pos := of_int (Z.of_nat i) / of_int (Z.of_nat NUM_LEDS) in
  let angle := pos * of_int petals in
  let carrier := lit 5 10 * (sinf (TWO_PI * (t * freq + angle)) + f1) in
  clamp01 carrier.

Definition interferenceMask (i : nat) (t fL fR : F) : F :=
  let pos := of_int (Z.of_nat i) / of_int (Z.of_nat NUM_LEDS) in
  let A := sinf (TWO_PI * (t * fL + pos)) in
  let B := sinf (TWO_PI * (t * fR - pos)) in
  let mix := (A + B) * lit 25 100 + lit 5 10 in
  clamp01 mix.

(** *** Colour utilities (main.cpp 210-238) *)

Definition mixColor (a b : CRGB) (w : F) : CRGB :=
  mkCRGB
    (safeClampInt (to_int (of_int (red a) * (f1 - w) + of_int (red b) * w)))
    (safeClampInt (to_int (of_int (green a) * (f1 - w) + of_int (green b) * w)))
    (safeClampInt (to_int (of_int (blue a) * (f1 - w) + of_int (blue b) * w))).

Definition getThetaColor (intensity : F) (isLeft : bool) : CRGB :=
  if isLeft then
    mkCRGB (safeClampInt (to_int (of_int 255 * intensity)))
           (safeClampInt (to_int (of_int 120 * intensity)))
           (safeClampInt (to_int (of_int 40 * intensity)))
  else
    mkCRGB (safeClampInt (to_int (of_int 40 * intensity)))
           (safeClampInt (to_int (of_int 130 * intensity)))
           (safeClampInt (to_int (of_int 255 * intensity))).

(** *** Safety envelope (main.cpp 317-334) *)

(** The smoothstep ramp applied to both channel amplitudes. *)
Definition rampMulOf (t : F) : F :=
  let rampMul := clamp01 (t / RAMP_IN_SECONDS) in
  rampMul * rampMul * (lit 3 1 - lit 2 1 * rampMul).

(** The value of [fade] at line 324, read when [t > MAX_SESSION_SECONDS]. *)
Definition fadeFrac (t : F) : F :=
  clamp01 (f1 - (t - MAX_SESSION_SECONDS) / lit 15 1).

(** *** Per-frame amplitudes (main.cpp 337-364) *)

Definition mandalaModeOf (t : F) : Z :=
  Z.rem (to_int (t / MODE_DURATION)) 3.

Definition finalAmps (t rampMul : F) : F * F :=
  let phL := getEnhancedPhase t LEFT_FREQ_HZ PHASE_SYNC_STRENGTH in
  let phR := getEnhancedPhase t RIGHT_FREQ_HZ PHASE_SYNC_STRENGTH in
  let '(ampL, ampR) :=
    if USE_SINUSOIDAL_MODULATION
    then (sinModSmooth t LEFT_FREQ_HZ, sinModSmooth t RIGHT_FREQ_HZ)
    else (expPulse phL PULSE_SHARPNESS, expPulse phR PULSE_SHARPNESS) in
  let micro :=
    if MICRO_ENABLED
    then lit 5 10 * (sinf (TWO_PI * MICRO_FREQ_HZ * t) + f1)
    else f1 in
  let breathe := lit 85 100 + lit 15 100 * sinf (TWO_PI * BREATH_FREQ_HZ * t) in
  (clamp01 (ampL * micro * rampMul * breathe),
   clamp01 (ampR * micro * rampMul * breathe)).

(** *** Rendering (main.cpp 366-442) *)

Definition leftColor : CRGB := mkCRGB 255 120 40.
Definition rightColor : CRGB := mkCRGB 40 130 255.
Definition centerColor : CRGB := mkCRGB 255 200 90.

(** [CRGB(safeClampInt(c.r * amp), safeClampInt(c.g * amp),
    safeClampInt(c.b * amp))], written out three times in the source. *)
Definition scaled (c : CRGB) (amp : F) : CRGB :=
  mkCRGB (safeClampInt (to_int (of_int (red c) * amp)))
         (safeClampInt (to_int (of_int (green c) * amp)))
         (safeClampInt (to_int (of_int (blue c) * amp))).

(** [leds[i]] read from the buffer. *)
Definition led (leds : list CRGB) (i : nat) : CRGB := default Black (leds !! i).

(** Line 372. *)
Definition clearLeds (leds : list CRGB) : list CRGB :=
  fold_left (fun leds i => <[i := Black]> leds) (seq 0 NUM_LEDS) leds.

(** Lines 375-385. *)
Definition leftCorePixel (t finalL : F) (i : nat) : CRGB :=
  let mask := spiralMask i t (lit 25 100 + LEFT_FREQ_HZ * lit 2 100) in
  let amp := finalL * mask in
  scaled leftColor amp.

Definition leftCore (t finalL : F) (leds : list CRGB) : list CRGB :=
  fold_left (fun leds i =>
               let idx := spiralAt i in
               <[idx := leftCorePixel t finalL i]> leds)
            (seq 0 3) leds.

(** Lines 388-398. *)
Definition rightCorePixel (t finalR : F) (i : nat) : CRGB :=
  let mask := spiralMask i t (lit 25 100 + RIGHT_FREQ_HZ * lit 2 100) in
  let amp := finalR * mask in
  scaled rightColor amp.

Definition rightCore (t finalR : F) (leds : list CRGB) : list CRGB :=
  fold_left (fun leds i =>
               let idx := spiralAt i in
               <[idx := rightCorePixel t finalR i]> leds)
            (seq (NUM_LEDS - 3) 3) leds.

(** Lines 401-410. *)
Definition centerPixel (finalL finalR : F) : CRGB :=
  let centerAmp := clamp01 ((finalL + finalR) * lit 5 10) in
  scaled centerColor centerAmp.

Definition centerAnchors (finalL finalR : F) (leds : list CRGB) : list CRGB :=
  let c0 := spiralAt 0 in
  let c1 := spiralAt 1 in
  let leds := <[c0 := centerPixel finalL finalR]> leds in
  <[c1 := led leds c0]> leds.

(** Lines 416-430: the [int] triple [r, g, b] of a main-body position. *)
Definition bodyRGB (t : F) (mandalaMode : Z) (finalL finalR : F) (pos : nat)
  : Z * Z * Z :=
  let mask :=
    if (mandalaMode =? 0)%Z then
      radialMask pos t ((LEFT_FREQ_HZ + RIGHT_FREQ_HZ) * lit 5 10) 8
    else if (mandalaMode =? 1)%Z then
      spiralMask pos t (lit 3 10 + lit 2 100 * ((LEFT_FREQ_HZ + RIGHT_FREQ_HZ) * lit 5 10))
    else interferenceMask pos t LEFT_FREQ_HZ RIGHT_FREQ_HZ in
  let mask := clamp01 mask in
  let stereoMix := if (pos <? NUM_LEDS / 2)%nat then lit 8 10 else lit 2 10 in
  let mixedAmp := clamp01 (mask * (stereoMix * finalL + (f1 - stereoMix) * finalR)) in
  let blended := mixColor centerColor (mixColor leftColor rightColor (lit 5 10)) (lit 6 10) in
  (to_int (of_int (red blended) * mixedAmp),
   to_int (of_int (green blended) * mixedAmp),
   to_int (of_int (blue blended) * mixedAmp)).

(** Line 432: the primary colour of a main-body position. *)
Definition bodyPixel (rgb : Z * Z * Z) : CRGB :=
  let '(r, g, b) := rgb in
  mkCRGB (safeClampInt r) (safeClampInt g) (safeClampInt b).

(** [(uint8_t)(r * REFLECTION_DECAY)]: the [int] is promoted to [float],
    scaled, and truncated into a byte. *)
Definition echoOf (r : Z) : Z := to_u8 (to_int (of_int r * REFLECTION_DECAY)).

(** Lines 435-441: the reflection echo of a position. *)
Definition echoStep (rgb : Z * Z * Z) (pos : nat) (leds : list CRGB) : list CRGB :=
  let '(r, g, b) := rgb in
  let echoPos := (pos + REFLECTION_OFFSET)%nat in
  if (echoPos <? NUM_LEDS)%nat then
    let echoIdx := spiralAt echoPos in
    let leds := alter (fun c => mkCRGB (qadd8 (red c) (echoOf r)) (green c) (blue c)) echoIdx leds in
    let leds := alter (fun c => mkCRGB (red c) (qadd8 (green c) (echoOf g)) (blue c)) echoIdx leds in
    alter (fun c => mkCRGB (red c) (green c) (qadd8 (blue c) (echoOf b))) echoIdx leds
  else leds.

(** Lines 413-442: one iteration of the main-body loop. *)
Definition bodyStep (t : F) (mandalaMode : Z) (finalL finalR : F)
    (leds : list CRGB) (pos : nat) : list CRGB :=
  let idx := spiralAt pos in
  let rgb := bodyRGB t mandalaMode finalL finalR pos in
  let leds := <[idx := bodyPixel rgb]> leds in
  echoStep rgb pos leds.

Definition mainBody (t : F) (mandalaMode : Z) (finalL finalR : F)
    (leds : list CRGB) : list CRGB :=
  fold_left (bodyStep t mandalaMode finalL finalR) (seq 2 (NUM_LEDS - 2 - 2)) leds.

(** Lines 337-442: the buffer after the frame computed for elapsed time [t]
    with ramp multiplier [rampMul]. *)
Definition renderFrame (t rampMul : F) (leds : list CRGB) : list CRGB :=
  let mandalaMode := mandalaModeOf t in
  let '(finalL, finalR) := finalAmps t rampMul in
  let leds := clearLeds leds in
  let leds := leftCore t finalL leds in
  let leds := rightCore t finalR leds in
  let leds := centerAnchors finalL finalR leds in
  mainBody t mandalaMode finalL finalR leds.

(** ** The machine: globals, the output sink and the environment *)

(** Where control is: inside [loop()], or in one of its two endless inner
    [while (true)] loops (lines 300-306 and line 329). *)
Inductive Mode := Running | PanicSpin | HaltedSpin.

Record Machine := mkMachine {
  leds : list CRGB;          (* CRGB leds[NUM_LEDS] *)
  brightness : Z;            (* FastLED's global brightness *)
  strip : list CRGB;         (* what the last FastLED.show() transmitted *)
  timer : option Z;          (* hw_timer_t *timer; None is NULL *)
  lastFrameMs : Z;
  tStart : F;
  pc : Mode
}.

(** What the code does to its collaborators, in program order. *)
Inductive Event :=
| EvSerialBegin (baud : Z)
| EvPrintln (line : string)
| EvPrintf (fmt : string) (ints : list Z) (floats : list F)
| EvDelay (ms : Z)
| EvTimerBegin (num divider : Z) (countUp : bool) (handle : option Z)
| EvTimerAttachInterrupt (handle : option Z)
| EvTimerAlarmWrite (handle : option Z) (ticks : Z)
| EvTimerAlarmEnable (handle : option Z)
| EvPinMode (pin : Z)
| EvAddLeds (pin : Z) (n : nat)
| EvSetBrightness (b : Z)
| EvShow (frame : list CRGB) (b : Z)
| EvDigitalRead (pin : Z) (low : bool)
| EvMillis (ms : Z)
| EvTimerRead (micros : Z).

(** What the environment answers during one pass: the level of the panic
    pin, [millis()], the interrupt-driven counter [timerMicros] and (at
    start-up) the result of [timerBegin]. *)
Record Input := mkInput {
  pin_low : bool;
  now_ms : Z;
  timer_micros : Z;
  timer_handle : option Z
}.

(** A computation reads the environment, updates the machine and logs its
    events. *)
Definition Prog (X : Type) : Type := Input -> Machine -> X * Machine * list Event.

Definition ret {X} (x : X) : Prog X := fun _ m => (x, m, []).

Definition bind {X Y} (c : Prog X) (k : X -> Prog Y) : Prog Y :=
  fun i m =>
    let '(x, m1, e1) := c i m in
    let '(y, m2, e2) := k x i m1 in
    (y, m2, e1 ++ e2).

Notation "x <- c ;; k" := (bind c (fun x => k))
  (at level 100, c at next level, right associativity).
Notation "c ;; k" := (bind c (fun _ => k))
  (at level 100, right associativity).

Definition emit (e : Event) : Prog unit := fun _ m => (tt, m, [e]).
Definition ask {X} (f : Input -> X) : Prog X := fun i m => (f i, m, []).
Definition get {X} (f : Machine -> X) : Prog X := fun _ m => (f m, m, []).
Definition modify (f : Machine -> Machine) : Prog unit := fun _ m => (tt, f m, []).

Definition set_leds (l : list CRGB) (m : Machine) : Machine :=
  mkMachine l (brightness m) (strip m) (timer m) (lastFrameMs m) (tStart m) (pc m).
Definition set_brightness (b : Z) (m : Machine) : Machine :=
  mkMachine (leds m) b (strip m) (timer m) (lastFrameMs m) (tStart m) (pc m).
Definition set_strip (l : list CRGB) (m : Machine) : Machine :=
  mkMachine (leds m) (brightness m) l (timer m) (lastFrameMs m) (tStart m) (pc m).
Definition set_timer (h : option Z) (m : Machine) : Machine :=
  mkMachine (leds m) (brightness m) (strip m) h (lastFrameMs m) (tStart m) (pc m).
Definition set_lastFrameMs (v : Z) (m : Machine) : Machine :=
  mkMachine (leds m) (brightness m) (strip m) (timer m) v (tStart m) (pc m).
Definition set_tStart (v : F) (m : Machine) : Machine :=
  mkMachine (leds m) (brightness m) (strip m) (timer m) (lastFrameMs m) v (pc m).
Definition set_pc (v : Mode) (m : Machine) : Machine :=
  mkMachine (leds m) (brightness m) (strip m) (timer m) (lastFrameMs m) (tStart m) v.

(** *** The collaborators' calls *)

Definition println (s : string) : Prog unit := emit (EvPrintln s).
Definition printf (fmt : string) (ints : list Z) (floats : list F) : Prog unit :=
  emit (EvPrintf fmt ints floats).
Definition delay (ms : Z) : Prog unit := emit (EvDelay ms).

(** [digitalRead(pin) == LOW]. *)
Definition digitalReadLow (pin : Z) : Prog bool :=
  low <- ask pin_low ;; emit (EvDigitalRead pin low) ;; ret low.

(** [millis()], an [unsigned long] of 32 bits. *)
Definition millis : Prog Z :=
  ms <- ask now_ms ;; emit (EvMillis ms) ;; ret (ms mod 2 ^ 32)%Z.

(** [getTimeSeconds()] (lines 130-135) on the counter the interrupt
    handler advances. *)
Definition readTimeSeconds : Prog F :=
  micros <- ask timer_micros ;; emit (EvTimerRead micros) ;;
  ret (getTimeSeconds micros).

Definition fill_solid_black : Prog unit :=
  modify (set_leds (replicate NUM_LEDS Black)).

Definition FastLED_setBrightness (b : Z) : Prog unit :=
  modify (set_brightness b) ;; emit (EvSetBrightness b).

Definition FastLED_show : Prog unit :=
  l <- get leds ;; b <- get brightness ;;
  modify (set_strip l) ;; emit (EvShow l b).

Definition enter (mode : Mode) : Prog unit := modify (set_pc mode).

(** *** Start-up (main.cpp 99-106 and 252-288) *)

Definition initHardwareTimer : Prog unit :=
  h <- ask timer_handle ;;
  emit (EvTimerBegin 0 80 true h) ;;
  modify (set_timer h) ;;
  emit (EvTimerAttachInterrupt h) ;;
  emit (EvTimerAlarmWrite h 100) ;;
  emit (EvTimerAlarmEnable h).

Definition setup : Prog unit :=
  emit (EvSerialBegin 115200) ;;
  delay 500 ;;
  println "========================================" ;;
  println "ESP32 Theta Entrainment System" ;;
  println "Research-Grade Version" ;;
  println "========================================" ;;
  initHardwareTimer ;;
  println "Hardware timer initialized" ;;
  emit (EvPinMode PANIC_PIN) ;;
  println "Panic button configured on pin 14" ;;
  emit (EvAddLeds LED_PIN NUM_LEDS) ;;
  FastLED_setBrightness GLOBAL_BRIGHTNESS ;;
  printf "LED strip initialized: %d LEDs on pin %d\n" [Z.of_nat NUM_LEDS; LED_PIN] [] ;;
  fill_solid_black ;;
  FastLED_show ;;
  now <- readTimeSeconds ;;
  modify (set_tStart now) ;;
  ms <- millis ;;
  modify (set_lastFrameMs ms) ;;
  printf "Left frequency: %.2f Hz\n" [] [LEFT_FREQ_HZ] ;;
  printf "Right frequency: %.2f Hz\n" [] [RIGHT_FREQ_HZ] ;;
  printf "Max session time: %.0f seconds (%.1f minutes)\n" []
         [MAX_SESSION_SECONDS; MAX_SESSION_SECONDS / lit 60 1] ;;
  printf "Ramp-in time: %.0f seconds (%.1f minutes)\n" []
         [RAMP_IN_SECONDS; RAMP_IN_SECONDS / lit 60 1] ;;
  println "System ready. Session started." ;;
  println "========================================".

(** *** One pass of [loop()] (main.cpp 293-445) *)

(** Lines 315-444, after the frame-rate gate. *)
Definition frame : Prog unit :=
  now <- readTimeSeconds ;;
  t0 <- get tStart ;;
  let t := now - t0 in
  let rampMul := rampMulOf t in
  let render :=
    l <- get leds ;;
    modify (set_leds (renderFrame t rampMul l)) ;;
    FastLED_show in
  if t >? MAX_SESSION_SECONDS then
    let fade := fadeFrac t in
    if fade <=? lit 1 100 then
      println "Session timeout reached. Shutting down." ;;
      fill_solid_black ;;
      FastLED_show ;;
      enter HaltedSpin
    else
      let fade := fade * fade in
      FastLED_setBrightness (to_u8 (to_int (of_int GLOBAL_BRIGHTNESS * fade))) ;;
      render
  else render.

Definition loop : Prog unit :=
  low <- digitalReadLow PANIC_PIN ;;
  if low then
    println "!!! PANIC STOP ACTIVATED !!!" ;;
    fill_solid_black ;;
    FastLED_show ;;
    enter PanicSpin
  else
    nowMs <- millis ;;
    last <- get lastFrameMs ;;
    if ((nowMs - last) mod 2 ^ 32 <? FRAME_MS)%Z then ret tt
    else
      modify (set_lastFrameMs nowMs) ;;
      frame.

(** One turn of the inner loop at lines 300-306. *)
Definition panicSpin : Prog unit :=
  delay 1000 ;;
  low <- digitalReadLow PANIC_PIN ;;
  if negb low then println "Panic button released. System halted."
  else ret tt.

(** One turn of the inner loop at line 329. *)
Definition haltedSpin : Prog unit := delay 1000.

(** One scheduling step: a pass of [loop()] while it still returns, a turn
    of the inner loop it is caught in otherwise. *)
Definition step (i : Input) (m : Machine) : Machine * list Event :=
  let '(_, m', ev) :=
    match pc m with
    | Running => loop i m
    | PanicSpin => panicSpin i m
    | HaltedSpin => haltedSpin i m
    end in
  (m', ev).

(** The globals before [setup()]: zero-initialised statics, FastLED's
    default brightness 255. *)
Definition power_on : Machine :=
  mkMachine (replicate NUM_LEDS Black) 255 (replicate NUM_LEDS Black) None 0 (of_int 0) Running.

Definition boot (i : Input) : Machine * list Event :=
  let '(_, m, ev) := setup i power_on in (m, ev).

(** The machine and the whole event log after [setup()] and the given
    steps. *)
Fixpoint run_from (m : Machine) (ins : list Input) : Machine * list Event :=
  match ins with
  | [] => (m, [])
  | i :: ins =>
      let '(m1, e1) := step i m in
      let '(m2, e2) := run_from m1 ins in
      (m2, e1 ++ e2)
  end.

Definition run (b : Input) (ins : list Input) : Machine * list Event :=
  let '(m0, e0) := boot b in
  let '(m, e) := run_from m0 ins in
  (m, e0 ++ e).

(** *** Derived readings of a pass *)

(** All LEDs off. *)
Definition allBlack : list CRGB := replicate NUM_LEDS Black.

(** The elapsed session time [t] of line 315 for the timer value of this
    pass. *)
Definition elapsed (m : Machine) (i : Input) : F :=
  (getTimeSeconds (timer_micros i) - tStart m)%flt.

(** The frame-rate gate of lines 310-311 lets the pass through. *)
Definition frame_due (m : Machine) (i : Input) : bool :=
  negb ((now_ms i mod 2 ^ 32 - lastFrameMs m) mod 2 ^ 32 <? FRAME_MS)%Z.

(** The test of line 323. *)
Definition past_limit (t : F) : bool := (t >? MAX_SESSION_SECONDS)%flt.

(** The test of line 325. *)
Definition fade_done (t : F) : bool := (fadeFrac t <=? lit 1 100)%flt.

(** The brightness set at line 333. *)
Definition fadeBrightness (t : F) : Z :=
  to_u8 (to_int (of_int GLOBAL_BRIGHTNESS * (fadeFrac t * fadeFrac t))%flt).

(** The channels of a colour fit [uint8_t]. *)
Definition is_byte_colour (c : CRGB) : Prop :=
  (0 <= red c <= 255)%Z /\ (0 <= green c <= 255)%Z /\ (0 <= blue c <= 255)%Z.

(** A colour after the three saturating additions of lines 438-440 for the
    echo of the [int] triple [rgb]. *)
Definition withEcho (c : CRGB) (rgb : Z * Z * Z) : CRGB :=
  let '(r, g, b) := rgb in
  mkCRGB (qadd8 (red c) (echoOf r))
         (qadd8 (green c) (echoOf g))
         (qadd8 (blue c) (echoOf b)).

(** What the submitted buffer holds at logical position [p]. *)
Definition submittedPixel (t rampMul : F) (p : nat) : CRGB :=
  let '(finalL, finalR) := finalAmps t rampMul in
  let rgb := bodyRGB t (mandalaModeOf t) finalL finalR in
  if (p <? 2)%nat then centerPixel finalL finalR
  else if (p <? NUM_LEDS - 2)%nat then bodyPixel (rgb p)
  else withEcho (rightCorePixel t finalR p) (rgb (p - REFLECTION_OFFSET)%nat).

(** The frame for elapsed time [t]: the buffer rendered over a cleared
    array, and the brightness in force (line 271, or line 333 once the
    session is past its limit). *)
Definition frameLeds (t : F) : list CRGB := renderFrame t (rampMulOf t) allBlack.

Definition frameBrightness (t : F) : Z :=
  if past_limit t then fadeBrightness t else GLOBAL_BRIGHTNESS.

(** Reading the counter later never takes the session back under its
    limit: the conversion of line 134, the subtraction of line 315 and the
    comparison of line 323 are monotone in the counter. *)
Definition limit_monotone : Prop :=
  forall (tS : F) (a b : Z),
    (a <= b)%Z ->
    past_limit (getTimeSeconds a - tS)%flt = true ->
    past_limit (getTimeSeconds b - tS)%flt = true.

(** The last counter value the environment has shown. *)
Definition last_counter (prev : Z) (ins : list Input) : Z :=
  fold_left (fun _ i => timer_micros i) ins prev.

(** What a run has established about the brightness, [mu] being the last
    counter value the environment has shown. *)
Definition brightness_tracks (tS : F) (m : Machine) (mu : Z) : Prop :=
  tStart m = tS /\
  length (leds m) = NUM_LEDS /\
  (brightness m = GLOBAL_BRIGHTNESS \/
   exists a, (a <= mu)%Z /\ past_limit (getTimeSeconds a - tS)%flt = true).

(** The pass computes and submits a frame: control is in [loop()], the
    panic pin is high, the gate lets it through and the session has not
    faded out. *)
Definition renders (m : Machine) (i : Input) : bool :=
  match pc m with
  | Running =>
      negb (pin_low i) && frame_due m i &&
      negb (past_limit (elapsed m i) && fade_done (elapsed m i))
  | _ => false
  end.

(** The [println] lines of an event log. *)
Fixpoint printed (ev : list Event) : list string :=
  match ev with
  | [] => []
  | EvPrintln s :: ev => s :: printed ev
  | _ :: ev => printed ev
  end.

(** The frames handed to the strip in an event log. *)
Fixpoint shown (ev : list Event) : list (list CRGB * Z) :=
  match ev with
  | [] => []
  | EvShow l b :: ev => (l, b) :: shown ev
  | _ :: ev => shown ev
  end.

(** The interrupt-driven counter never runs backwards. *)
Fixpoint counter_monotone (prev : Z) (ins : list Input) : Prop :=
  match ins with
  | [] => True
  | i :: ins => (prev <= timer_micros i)%Z /\ counter_monotone (timer_micros i) ins
  end.

(** *** Machines the firmware can be in *)

Inductive reachable : Machine -> Prop :=
| reach_boot (b : Input) : reachable (fst (boot b))
| reach_step (m : Machine) (i : Input) :
    reachable m -> reachable (fst (step i m)).

(** The buffer has its [NUM_LEDS] entries, and inside either endless inner
    loop both the buffer and the strip are black. *)
Definition dark_when_stopped (m : Machine) : Prop :=
  length (leds m) = NUM_LEDS /\
  (pc m <> Running -> leds m = allBlack /\ strip m = allBlack).

End Firmware.

(** ** Exact real arithmetic as an implementation of the float operations *)

Definition Rltb (x y : R) : bool := if Rlt_dec x y then true else false.
Definition Rleb (x y : R) : bool := if Rle_dec x y then true else false.

(** Truncation toward zero. *)
Definition Rtrunc (x : R) : Z :=
  if Rle_dec 0 x then Int_part x else (- Int_part (- x))%Z.

(** [fmod x y]: [x] minus the truncated quotient times [y]. *)
Definition Rfmod (x y : R) : R := (x - IZR (Rtrunc (x / y)) * y)%R.

#[export] Instance RealArith : FloatArith := {|
  F := R;
  lit n d := (IZR n / IZR d)%R;
  of_int := IZR;
  to_int := Rtrunc;
  fadd := Rplus;
  fsub := Rminus;
  fmul := Rmult;
  fdiv := Rdiv;
  fopp := Ropp;
  flt := Rltb;
  fle := Rleb;
  sinf := sin;
  expf := exp;
  fabs := Rabs;
  fmodf := Rfmod;
  TWO_PI := (2 * PI)%R
|}.

(** ** IEEE 754 binary32 as an implementation of the float operations *)

(** A binary32 value: [spec_float] at precision 24 and maximal exponent
    128.  [SFadd], [SFsub], [SFmul] and [SFdiv] round to nearest, ties to
    even. *)
Definition b32 : Type := spec_float.

(** [(float)z]. *)
Definition b32_of_Z (z : Z) : b32 := binary_normalize 24 128 z 0 false.

(** The literal [n/d] of two integers that binary32 holds exactly: the
    float nearest to the quotient. *)
Definition b32_lit (n d : Z) : b32 := SFdiv 24 128 (b32_of_Z n) (b32_of_Z d).

(** [(int)x]: the integer part, toward zero.  (C++ leaves the conversion
    of a NaN or an infinity undefined; it is 0 here.) *)
Definition b32_to_Z (x : b32) : Z :=
  match x with
  | S754_finite s m e =>
      let a := match e with
               | Zneg k => Z.shiftr (Zpos m) (Zpos k)
               | _ => Z.shiftl (Zpos m) e
               end in
      if s then - a else a
  | _ => 0
  end.

(** [fmodf x y]: the exact remainder of the truncated quotient, with the
    sign of [x]. *)
Definition b32_fmod (x y : b32) : b32 :=
  match x, y with
  | S754_finite sx mx ex, S754_finite _ my ey =>
      let e := Z.min ex ey in
      let r := Z.shiftl (Zpos mx) (ex - e) mod Z.shiftl (Zpos my) (ey - e) in
      match r with
      | Z0 => S754_zero sx
      | _ => binary_normalize 24 128 (if sx then - r else r) e false
      end
  | S754_zero _, S754_finite _ _ _ => x
  | S754_zero _, S754_infinity _ => x
  | S754_finite _ _ _, S754_infinity _ => x
  | _, _ => S754_nan
  end.

(** The binary32 operations.  IEEE 754 does not fix the results of libm's
    [sinf] and [expf], so they are arguments.  [TWO_PI] is the double
    constant of Arduino.h rounded to binary32 (0x40C90FDB); the source
    forms its products with that constant in double precision before
    [sinf] narrows them, this instance forms them in binary32.  The
    instance is used for the clock and the safety envelope (main.cpp
    130-135 and 315-334), whose operations are all binary32 in the source
    and involve none of the three. *)
Definition Binary32Arith (libm_sinf libm_expf : b32 -> b32) : FloatArith := {|
  F := b32;
  lit := b32_lit;
  of_int := b32_of_Z;
  to_int := b32_to_Z;
  fadd := SFadd 24 128;
  fsub := SFsub 24 128;
  fmul := SFmul 24 128;
  fdiv := SFdiv 24 128;
  fopp := SFopp;
  flt := SFltb;
  fle := SFleb;
  sinf := libm_sinf;
  expf := libm_expf;
  fabs := SFabs;
  fmodf := b32_fmod;
  TWO_PI := S754_finite false 13176795 (-21)
|}.

(** ** Control flow: facts that hold for every float implementation *)

Ltac run_prog :=
  unfold step, loop, frame, panicSpin, haltedSpin, digitalReadLow, millis,
    readTimeSeconds, fill_solid_black, FastLED_show, FastLED_setBrightness,
    enter, println, delay, bind, ask, get, modify, emit, ret.

Ltac fields :=
  unfold set_leds, set_brightness, set_strip, set_timer, set_lastFrameMs,
    set_tStart, set_pc;
  cbn [leds brightness strip timer lastFrameMs tStart pc app fst snd].

Section ControlFlow.

Context {FA : FloatArith}.

Lemma step_panic (i : Input) (m : Machine) :
  pc m = Running -> pin_low i = true ->
  step i m =
    (mkMachine allBlack (brightness m) allBlack (timer m) (lastFrameMs m) (tStart m) PanicSpin,
     [EvDigitalRead PANIC_PIN true;
      EvPrintln "!!! PANIC STOP ACTIVATED !!!";
      EvShow allBlack (brightness m)]).
Proof.
  intros Hpc Hlow. unfold step. rewrite Hpc.
  unfold loop, bind, digitalReadLow, bind, ask, emit, ret. rewrite Hlow.
  reflexivity.
Qed.

Lemma step_skip (i : Input) (m : Machine) :
  pc m = Running -> pin_low i = false -> frame_due m i = false ->
  step i m = (m, [EvDigitalRead PANIC_PIN false; EvMillis (now_ms i)]).
Proof.
  intros Hpc Hlow Hdue. unfold frame_due in Hdue.
  apply negb_false_iff in Hdue.
  run_prog. rewrite Hpc, Hlow, Hdue. reflexivity.
Qed.

Lemma step_halt (i : Input) (m : Machine) :
  pc m = Running -> pin_low i = false -> frame_due m i = true ->
  past_limit (elapsed m i) = true -> fade_done (elapsed m i) = true ->
  step i m =
    (mkMachine allBlack (brightness m) allBlack (timer m)
       (now_ms i mod 2 ^ 32) (tStart m) HaltedSpin,
     [EvDigitalRead PANIC_PIN false; EvMillis (now_ms i);
      EvTimerRead (timer_micros i);
      EvPrintln "Session timeout reached. Shutting down.";
      EvShow allBlack (brightness m)]).
Proof.
  intros Hpc Hlow Hdue Hpast Hfade. unfold frame_due in Hdue.
  apply negb_true_iff in Hdue.
  unfold past_limit, fade_done, elapsed in *.
  run_prog. rewrite Hpc, Hlow, Hdue. fields.
  rewrite Hpast, Hfade. reflexivity.
Qed.

Lemma step_fade (i : Input) (m : Machine) :
  pc m = Running -> pin_low i = false -> frame_due m i = true ->
  past_limit (elapsed m i) = true -> fade_done (elapsed m i) = false ->
  let t := elapsed m i in
  let out := renderFrame t (rampMulOf t) (leds m) in
  step i m =
    (mkMachine out (fadeBrightness t) out (timer m)
       (now_ms i mod 2 ^ 32) (tStart m) Running,
     [EvDigitalRead PANIC_PIN false; EvMillis (now_ms i);
      EvTimerRead (timer_micros i);
      EvSetBrightness (fadeBrightness t);
      EvShow out (fadeBrightness t)]).
Proof.
  intros Hpc Hlow Hdue Hpast Hfade. unfold frame_due in Hdue.
  apply negb_true_iff in Hdue.
  unfold past_limit, fade_done, elapsed, fadeBrightness in *.
  run_prog. rewrite Hpc, Hlow, Hdue. fields.
  rewrite Hpast, Hfade. fields. rewrite Hpc. reflexivity.
Qed.

Lemma step_render (i : Input) (m : Machine) :
  pc m = Running -> pin_low i = false -> frame_due m i = true ->
  past_limit (elapsed m i) = false ->
  let t := elapsed m i in
  let out := renderFrame t (rampMulOf t) (leds m) in
  step i m =
    (mkMachine out (brightness m) out (timer m)
       (now_ms i mod 2 ^ 32) (tStart m) Running,
     [EvDigitalRead PANIC_PIN false; EvMillis (now_ms i);
      EvTimerRead (timer_micros i);
      EvShow out (brightness m)]).
Proof.
  intros Hpc Hlow Hdue Hpast. unfold frame_due in Hdue.
  apply negb_true_iff in Hdue.
  unfold past_limit, elapsed in *.
  run_prog. rewrite Hpc, Hlow, Hdue. fields.
  rewrite Hpast. fields. rewrite Hpc. reflexivity.
Qed.

Lemma step_panicSpin (i : Input) (m : Machine) :
  pc m = PanicSpin ->
  step i m =
    (m, [EvDelay 1000; EvDigitalRead PANIC_PIN (pin_low i)] ++
        (if pin_low i then []
         else [EvPrintln "Panic button released. System halted."])).
Proof.
  intros Hpc. run_prog. rewrite Hpc. destruct (pin_low i); reflexivity.
Qed.

Lemma step_haltedSpin (i : Input) (m : Machine) :
  pc m = HaltedSpin -> step i m = (m, [EvDelay 1000]).
Proof. intros Hpc. run_prog. rewrite Hpc. reflexivity. Qed.

Lemma boot_eq (i : Input) :
  boot i =
    (mkMachine allBlack GLOBAL_BRIGHTNESS allBlack (timer_handle i)
       (now_ms i mod 2 ^ 32) (getTimeSeconds (timer_micros i)) Running,
     [EvSerialBegin 115200; EvDelay 500;
      EvPrintln "========================================";
      EvPrintln "ESP32 Theta Entrainment System";
      EvPrintln "Research-Grade Version";
      EvPrintln "========================================";
      EvTimerBegin 0 80 true (timer_handle i);
      EvTimerAttachInterrupt (timer_handle i);
      EvTimerAlarmWrite (timer_handle i) 100;
      EvTimerAlarmEnable (timer_handle i);
      EvPrintln "Hardware timer initialized";
      EvPinMode PANIC_PIN;
      EvPrintln "Panic button configured on pin 14";
      EvAddLeds LED_PIN NUM_LEDS;
      EvSetBrightness GLOBAL_BRIGHTNESS;
      EvPrintf "LED strip initialized: %d LEDs on pin %d\n"
        [Z.of_nat NUM_LEDS; LED_PIN] [];
      EvShow allBlack GLOBAL_BRIGHTNESS;
      EvTimerRead (timer_micros i);
      EvMillis (now_ms i);
      EvPrintf "Left frequency: %.2f Hz\n" [] [LEFT_FREQ_HZ];
      EvPrintf "Right frequency: %.2f Hz\n" [] [RIGHT_FREQ_HZ];
      EvPrintf "Max session time: %.0f seconds (%.1f minutes)\n" []
        [MAX_SESSION_SECONDS; (MAX_SESSION_SECONDS / lit 60 1)%flt];
      EvPrintf "Ramp-in time: %.0f seconds (%.1f minutes)\n" []
        [RAMP_IN_SECONDS; (RAMP_IN_SECONDS / lit 60 1)%flt];
      EvPrintln "System ready. Session started.";
      EvPrintln "========================================"]).
Proof. reflexivity. Qed.

(** *** The buffer keeps its size *)

Lemma fold_left_length {X} (f : list CRGB -> X -> list CRGB) (xs : list X) :
  (forall l x, length (f l x) = length l) ->
  forall l, length (fold_left f xs l) = length l.
Proof.
  intros Hf. induction xs as [|x xs IH]; intros l; cbn [fold_left].
  - reflexivity.
  - rewrite IH. apply Hf.
Qed.

Lemma echoStep_length rgb pos l : length (echoStep rgb pos l) = length l.
Proof.
  unfold echoStep. destruct rgb as [[r g] b].
  destruct (_ <? _)%nat; [|reflexivity].
  now rewrite !length_alter.
Qed.

Lemma renderFrame_length t rampMul l :
  length (renderFrame t rampMul l) = length l.
Proof.
  unfold renderFrame. destruct (finalAmps t rampMul) as [finalL finalR].
  unfold mainBody, centerAnchors, rightCore, leftCore, clearLeds.
  rewrite fold_left_length.
  2:{ intros l0 x. unfold bodyStep. rewrite echoStep_length. apply length_insert. }
  rewrite !length_insert.
  rewrite !fold_left_length; auto using length_insert.
  all: intros; apply length_insert.
Qed.

Lemma clearLeds_black (l : list CRGB) :
  length l = NUM_LEDS -> clearLeds l = allBlack.
Proof.
  intros Hlen. unfold NUM_LEDS in Hlen.
  do 21 (destruct l as [|? l]; [try discriminate Hlen|]); try discriminate Hlen.
  reflexivity.
Qed.

Lemma step_cases (i : Input) (m : Machine) :
  pc m = Running ->
  (pin_low i = true \/
   (pin_low i = false /\ frame_due m i = false) \/
   (pin_low i = false /\ frame_due m i = true /\
    past_limit (elapsed m i) = true /\ fade_done (elapsed m i) = true) \/
   (pin_low i = false /\ frame_due m i = true /\
    past_limit (elapsed m i) = true /\ fade_done (elapsed m i) = false) \/
   (pin_low i = false /\ frame_due m i = true /\
    past_limit (elapsed m i) = false)).
Proof.
  intros _. destruct (pin_low i), (frame_due m i),
    (past_limit (elapsed m i)), (fade_done (elapsed m i)); tauto.
Qed.

Lemma dark_when_stopped_step (i : Input) (m : Machine) :
  dark_when_stopped m -> dark_when_stopped (fst (step i m)).
Proof.
  intros [Hlen Hdark]. destruct (pc m) eqn:Hpc.
  - destruct (step_cases i m Hpc)
      as [H|[[H1 H2]|[(H1 & H2 & H3 & H4)|[(H1 & H2 & H3 & H4)|(H1 & H2 & H3)]]]].
    + rewrite step_panic by assumption. split; [reflexivity|]. intros _. split; reflexivity.
    + rewrite step_skip by assumption. split; [assumption|].
      cbn [fst]. intros Hne. congruence.
    + rewrite step_halt by assumption. split; [reflexivity|]. intros _. split; reflexivity.
    + rewrite step_fade by assumption. split.
      * cbn [fst leds]. now rewrite renderFrame_length.
      * cbn [fst pc]. congruence.
    + rewrite step_render by assumption. split.
      * cbn [fst leds]. now rewrite renderFrame_length.
      * cbn [fst pc]. congruence.
  - rewrite step_panicSpin by assumption. split; [assumption|].
    cbn [fst]. intros _. apply Hdark. discriminate.
  - rewrite step_haltedSpin by assumption. split; [assumption|].
    cbn [fst]. intros _. apply Hdark. discriminate.
Qed.

Lemma reachable_dark_when_stopped (m : Machine) :
  reachable m -> dark_when_stopped m.
Proof.
  induction 1 as [b|m i _ IH].
  - rewrite boot_eq. split; [reflexivity|]. cbn [fst pc]. congruence.
  - now apply dark_when_stopped_step.
Qed.

(** *** The two endless inner loops *)

Lemma shown_app (e1 e2 : list Event) : shown (e1 ++ e2) = shown e1 ++ shown e2.
Proof.
  induction e1 as [|e e1 IH]; [reflexivity|].
  destruct e; cbn [app shown]; rewrite ?IH; reflexivity.
Qed.

Lemma printed_app (e1 e2 : list Event) :
  printed (e1 ++ e2) = printed e1 ++ printed e2.
Proof.
  induction e1 as [|e e1 IH]; [reflexivity|].
  destruct e; cbn [app printed]; rewrite ?IH; reflexivity.
Qed.

Lemma run_from_panicSpin (m : Machine) (ins : list Input) :
  pc m = PanicSpin ->
  fst (run_from m ins) = m /\
  shown (snd (run_from m ins)) = [] /\
  printed (snd (run_from m ins)) =
    map (fun _ => "Panic button released. System halted."%string)
        (List.filter (fun i => negb (pin_low i)) ins).
Proof.
  intros Hpc. induction ins as [|i ins (IH1 & IH2 & IH3)]; [easy|].
  cbn [run_from]. rewrite step_panicSpin by assumption.
  destruct (run_from m ins) as [m2 e2]. cbn [fst snd] in *.
  split; [assumption|].
  rewrite shown_app, printed_app, IH2, IH3.
  cbn [List.filter]. destruct (pin_low i); cbn; auto.
Qed.

Lemma run_from_haltedSpin (m : Machine) (ins : list Input) :
  pc m = HaltedSpin ->
  fst (run_from m ins) = m /\
  shown (snd (run_from m ins)) = [] /\
  printed (snd (run_from m ins)) = [].
Proof.
  intros Hpc. induction ins as [|i ins (IH1 & IH2 & IH3)]; [easy|].
  cbn [run_from]. rewrite step_haltedSpin by assumption.
  destruct (run_from m ins) as [m2 e2]. cbn [fst snd] in *.
  auto.
Qed.

(** *** Panic stop *)

(** C1: whatever the machine was doing (ramping in, steady, fading out or
    already stopped), a pass in which the panic pin reads low leaves the
    buffer and the strip all black.  From inside [loop()] that pass does
    nothing but read the pin, print the panic line and hand the all-black
    buffer to the strip, and control enters the panic loop.  And every
    pass of [loop()] begins by reading the panic pin, before it touches
    anything else. *)
Theorem panic_blackout_in_one_pass (m : Machine) (i : Input) :
  reachable m ->
  (pin_low i = true ->
     leds (fst (step i m)) = allBlack /\ strip (fst (step i m)) = allBlack /\
     (pc m = Running ->
        pc (fst (step i m)) = PanicSpin /\
        snd (step i m) =
          [EvDigitalRead PANIC_PIN true;
           EvPrintln "!!! PANIC STOP ACTIVATED !!!";
           EvShow allBlack (brightness m)])) /\
  (pc m = Running ->
     exists rest, snd (step i m) = EvDigitalRead PANIC_PIN (pin_low i) :: rest).
Proof.
  intros Hreach. apply reachable_dark_when_stopped in Hreach as [_ Hdark].
  split.
  - intros Hlow. destruct (pc m) eqn:Hpc.
    + rewrite step_panic by assumption. cbn [fst snd leds strip pc].
      split; [reflexivity|]. split; [reflexivity|]. intros _. split; reflexivity.
    + rewrite step_panicSpin by assumption. cbn [fst].
      destruct Hdark as [H1 H2]; [discriminate|].
      split; [assumption|]. split; [assumption|]. discriminate.
    + rewrite step_haltedSpin by assumption. cbn [fst].
      destruct Hdark as [H1 H2]; [discriminate|].
      split; [assumption|]. split; [assumption|]. discriminate.
  - intros Hpc.
    destruct (step_cases i m Hpc)
      as [H|[[H1 H2]|[(H1 & H2 & H3 & H4)|[(H1 & H2 & H3 & H4)|(H1 & H2 & H3)]]]].
    + rewrite step_panic, H by assumption. eauto.
    + rewrite step_skip, H1 by assumption. eauto.
    + rewrite step_halt, H1 by assumption. eauto.
    + rewrite step_fade, H1 by assumption. eauto.
    + rewrite step_render, H1 by assumption. eauto.
Qed.

(** The loop of lines 300-306 has no exit: once the panic stop is taken
    the machine never leaves it.  Whatever the pin does afterwards the
    machine stays as it is, with a black strip; no frame is shown again;
    a turn in which the pin reads high only prints a line. *)
Theorem panic_halt_is_permanent (m : Machine) (ins : list Input) :
  reachable m -> pc m = PanicSpin ->
  fst (run_from m ins) = m /\
  strip (fst (run_from m ins)) = allBlack /\
  shown (snd (run_from m ins)) = [] /\
  printed (snd (run_from m ins)) =
    map (fun _ => "Panic button released. System halted."%string)
        (List.filter (fun i => negb (pin_low i)) ins).
Proof.
  intros Hreach Hpc.
  destruct (run_from_panicSpin m ins Hpc) as (H1 & H2 & H3).
  apply reachable_dark_when_stopped in Hreach as [_ Hdark].
  rewrite H1. repeat split; try assumption.
  apply Hdark. congruence.
Qed.

(** *** Session timeout *)

(** C4: a pass of [loop()] ends in the halted loop exactly when it gets to
    evaluate the session limit (pin high, frame due) with the session past
    its limit and the fade at or below 0.01.  On entry the buffer and the
    strip are black and the shutdown line is printed; afterwards the
    machine never changes and never shows a frame again. *)
Theorem halted_entry_and_absorbing (m : Machine) (i : Input) :
  pc m = Running ->
  let t := elapsed m i in
  let m' := fst (step i m) in
  (pc m' = HaltedSpin <->
     pin_low i = false /\ frame_due m i = true /\
     past_limit t = true /\ fade_done t = true) /\
  (pc m' = HaltedSpin ->
     leds m' = allBlack /\ strip m' = allBlack /\
     printed (snd (step i m)) = ["Session timeout reached. Shutting down."%string] /\
     shown (snd (step i m)) = [(allBlack, brightness m)] /\
     forall ins,
       fst (run_from m' ins) = m' /\
       shown (snd (run_from m' ins)) = [] /\
       printed (snd (run_from m' ins)) = []).
Proof.
  intros Hpc t m'. subst t m'.
  destruct (step_cases i m Hpc)
    as [H|[[H1 H2]|[(H1 & H2 & H3 & H4)|[(H1 & H2 & H3 & H4)|(H1 & H2 & H3)]]]].
  - rewrite step_panic by assumption. cbn [fst snd pc].
    split; [split|]; try discriminate. intros (? & _). congruence.
  - rewrite step_skip by assumption. cbn [fst snd]. rewrite Hpc.
    split; [split|]; try discriminate. intros (_ & ? & _). congruence.
  - rewrite step_halt by assumption. cbn [fst snd pc leds strip].
    split; [tauto|]. intros _. repeat split; try reflexivity.
    all: apply run_from_haltedSpin; reflexivity.
  - rewrite step_fade by assumption. cbn [fst snd pc].
    split; [split|]; try discriminate. intros (_ & _ & _ & ?). congruence.
  - rewrite step_render by assumption. cbn [fst snd pc].
    split; [split|]; try discriminate. intros (_ & _ & ? & _). congruence.
Qed.

(** *** Start-up *)

(** C5, as the code has it: [setup()] never looks at what [timerBegin]
    returned.  Whether or not the timer was obtained it prints the same
    lines, among them the timer line, and leaves control in [loop()]. *)
Theorem setup_ignores_timer_result (i : Input) :
  pc (fst (boot i)) = Running /\
  timer (fst (boot i)) = timer_handle i /\
  printed (snd (boot i)) =
    ["========================================";
     "ESP32 Theta Entrainment System";
     "Research-Grade Version";
     "========================================";
     "Hardware timer initialized";
     "Panic button configured on pin 14";
     "System ready. Session started.";
     "========================================"]%string.
Proof. rewrite boot_eq. repeat split. Qed.

(** *** The submitted buffer, position by position *)

Lemma renderFrame_at (t rampMul : F) (l : list CRGB) (p : nat) :
  length l = NUM_LEDS -> (p < NUM_LEDS)%nat ->
  led (renderFrame t rampMul l) (spiralAt p) = submittedPixel t rampMul p.
Proof.
  intros Hlen Hp. unfold renderFrame, submittedPixel.
  destruct (finalAmps t rampMul) as [finalL finalR].
  rewrite clearLeds_black by assumption.
  unfold mainBody, bodyStep, centerAnchors, rightCore, leftCore.
  generalize (bodyRGB t (mandalaModeOf t) finalL finalR) as rgb.
  generalize (rightCorePixel t finalR) as rc.
  generalize (leftCorePixel t finalL) as lc.
  generalize (centerPixel finalL finalR) as cp.
  intros cp lc rc rgb.
  unfold NUM_LEDS in Hp.
  do 20 (destruct p as [|p]; [
    cbn [seq fold_left Nat.sub NUM_LEDS REFLECTION_OFFSET];
    repeat match goal with
    | |- context [rgb ?k] =>
        let x := fresh "x" in destruct (rgb k) as [[? ?] ?] eqn:x
    end; reflexivity |]).
  lia.
Qed.

Lemma spiralAt_lt (p : nat) : (p < NUM_LEDS)%nat -> (spiralAt p < NUM_LEDS)%nat.
Proof.
  unfold NUM_LEDS. intros Hp.
  do 20 (destruct p as [|p]; [cbv; lia|]). lia.
Qed.

Lemma qadd8_bounds (i j : Z) :
  0 <= i <= 255 -> 0 <= j ->
  i <= qadd8 i j <= 255 /\ qadd8 i j = Z.min 255 (i + j).
Proof.
  intros Hi Hj. unfold qadd8. cbv zeta.
  rewrite Z.gtb_ltb. destruct (Z.ltb_spec 255 (i + j)); lia.
Qed.

Lemma echoOf_bounds (r : Z) : 0 <= echoOf r <= 255.
Proof.
  unfold echoOf, to_u8.
  pose proof (Z.mod_pos_bound (to_int (of_int r * REFLECTION_DECAY)%flt) 256).
  lia.
Qed.

Lemma echoStep_at (rgb : Z * Z * Z) (pos : nat) (l : list CRGB) :
  length l = NUM_LEDS -> (pos + REFLECTION_OFFSET < NUM_LEDS)%nat ->
  led (echoStep rgb pos l) (spiralAt (pos + REFLECTION_OFFSET)) =
    withEcho (led l (spiralAt (pos + REFLECTION_OFFSET))) rgb.
Proof.
  intros Hlen Hpos. unfold echoStep, withEcho. destruct rgb as [[r g] b].
  apply Nat.ltb_lt in Hpos as Hguard. rewrite Hguard.
  pose proof (spiralAt_lt _ Hpos) as Hidx. rewrite <- Hlen in Hidx.
  apply lookup_lt_is_Some_2 in Hidx as [c Hc].
  unfold led. rewrite !list_lookup_alter_eq, Hc. reflexivity.
Qed.

(** *** Reflection echo *)

Example qadd8_below : qadd8 10 20 = 30.
Proof. reflexivity. Qed.

Example qadd8_saturated : qadd8 250 70 = 255.
Proof. reflexivity. Qed.

Example safeClampInt_samples :
  safeClampInt (-5) = 0 /\ safeClampInt 128 = 128 /\ safeClampInt 300 = 255.
Proof. repeat split. Qed.

Example spiralAt_ends : spiralAt 0 = 9%nat /\ spiralAt 1 = 10%nat /\ spiralAt 19 = 19%nat.
Proof. repeat split. Qed.

Lemma safeClampInt_byte (v : Z) : 0 <= safeClampInt v <= 255.
Proof.
  unfold safeClampInt. destruct (Z.ltb_spec v 0); [lia|].
  rewrite Z.gtb_ltb. destruct (Z.ltb_spec 255 v); lia.
Qed.

Lemma scaled_byte (c : CRGB) (amp : F) : is_byte_colour (scaled c amp).
Proof. repeat split; apply safeClampInt_byte. Qed.

Lemma bodyPixel_byte (rgb : Z * Z * Z) : is_byte_colour (bodyPixel rgb).
Proof. destruct rgb as [[r g] b]. repeat split; apply safeClampInt_byte. Qed.

Lemma withEcho_byte (c : CRGB) (rgb : Z * Z * Z) :
  is_byte_colour c -> is_byte_colour (withEcho c rgb).
Proof.
  intros (Hr & Hg & Hb). destruct rgb as [[r g] b].
  pose proof (echoOf_bounds r). pose proof (echoOf_bounds g).
  pose proof (echoOf_bounds b).
  pose proof (qadd8_bounds (red c) (echoOf r)).
  pose proof (qadd8_bounds (green c) (echoOf g)).
  pose proof (qadd8_bounds (blue c) (echoOf b)).
  unfold is_byte_colour. cbn [withEcho red green blue]. lia.
Qed.

(** Every channel of the submitted buffer is a byte: neither the clamped
    products nor the echo additions leave 0..255. *)
Lemma submitted_channels_are_bytes (t rampMul : F) (l : list CRGB) (p : nat) :
  length l = NUM_LEDS -> (p < NUM_LEDS)%nat ->
  is_byte_colour (led (renderFrame t rampMul l) (spiralAt p)).
Proof.
  intros Hlen Hp. rewrite renderFrame_at by assumption.
  unfold submittedPixel. destruct (finalAmps t rampMul) as [finalL finalR].
  destruct (p <? 2)%nat; [apply scaled_byte|].
  destruct (p <? NUM_LEDS - 2)%nat; [apply bodyPixel_byte|].
  apply withEcho_byte, scaled_byte.
Qed.

(** C9: in the main-body loop, whatever 8-bit colour the echo target
    holds, each of its channels after the echo is the saturating sum of
    the stored value and the decayed contribution: it stays at or below
    255 and is never smaller than before. *)
Theorem echo_addition_saturates (rgb : Z * Z * Z) (pos : nat) (l : list CRGB) :
  length l = NUM_LEDS -> (2 <= pos < NUM_LEDS - 2)%nat ->
  let old := led l (spiralAt (pos + REFLECTION_OFFSET)) in
  let new := led (echoStep rgb pos l) (spiralAt (pos + REFLECTION_OFFSET)) in
  0 <= red old <= 255 -> 0 <= green old <= 255 -> 0 <= blue old <= 255 ->
  (red old <= red new <= 255 /\
   red new = Z.min 255 (red old + echoOf (fst (fst rgb)))) /\
  (green old <= green new <= 255 /\
   green new = Z.min 255 (green old + echoOf (snd (fst rgb)))) /\
  (blue old <= blue new <= 255 /\
   blue new = Z.min 255 (blue old + echoOf (snd rgb))).
Proof.
  intros Hlen Hpos old new Hr Hg Hb. subst old new.
  rewrite echoStep_at by (unfold NUM_LEDS, REFLECTION_OFFSET in *; lia || assumption).
  destruct rgb as [[r g] b]. cbn [withEcho red green blue fst snd].
  repeat split; try apply qadd8_bounds; try assumption; apply echoOf_bounds.
Qed.

(** C10: in the submitted buffer every main-body position (logical 2 to
    [NUM_LEDS - 3]) holds exactly its own primary colour, the echoes
    written there earlier being overwritten; only the last
    [REFLECTION_OFFSET] logical positions hold a colour with an echo
    added, the right-core colour plus the echo of the position two
    before. *)
Theorem only_last_positions_keep_echo (t rampMul : F) (l : list CRGB) (p : nat) :
  length l = NUM_LEDS ->
  let out := renderFrame t rampMul l in
  let finalL := fst (finalAmps t rampMul) in
  let finalR := snd (finalAmps t rampMul) in
  let rgb := bodyRGB t (mandalaModeOf t) finalL finalR in
  ((2 <= p <= NUM_LEDS - 3)%nat ->
     led out (spiralAt p) = bodyPixel (rgb p)) /\
  ((NUM_LEDS - REFLECTION_OFFSET <= p < NUM_LEDS)%nat ->
     led out (spiralAt p) =
       withEcho (rightCorePixel t finalR p) (rgb (p - REFLECTION_OFFSET)%nat)).
Proof.
  intros Hlen out finalL finalR rgb. subst out finalL finalR rgb.
  unfold NUM_LEDS, REFLECTION_OFFSET. split; intros Hp.
  - rewrite renderFrame_at by (unfold NUM_LEDS; lia || assumption).
    unfold submittedPixel. destruct (finalAmps t rampMul) as [finalL finalR].
    cbn [fst snd].
    destruct (Nat.ltb_spec p 2); [lia|].
    destruct (Nat.ltb_spec p (NUM_LEDS - 2)); [reflexivity|].
    unfold NUM_LEDS in *. lia.
  - rewrite renderFrame_at by (unfold NUM_LEDS; lia || assumption).
    unfold submittedPixel. destruct (finalAmps t rampMul) as [finalL finalR].
    cbn [fst snd].
    destruct (Nat.ltb_spec p 2); [lia|].
    destruct (Nat.ltb_spec p (NUM_LEDS - 2)); [unfold NUM_LEDS in *; lia|].
    reflexivity.
Qed.

(** *** Frames as a function of elapsed time *)

Lemma renderFrame_cleared (t rampMul : F) (l : list CRGB) :
  length l = NUM_LEDS -> renderFrame t rampMul l = renderFrame t rampMul allBlack.
Proof.
  intros Hlen. unfold renderFrame.
  destruct (finalAmps t rampMul) as [finalL finalR].
  rewrite !clearLeds_black by (assumption || reflexivity). reflexivity.
Qed.

Lemma brightness_tracks_later tS m mu mu' :
  mu <= mu' -> brightness_tracks tS m mu -> brightness_tracks tS m mu'.
Proof.
  intros Hle (H1 & H2 & [H3|(a & Ha & H3)]); repeat split; auto.
  right. exists a. split; [lia|assumption].
Qed.

Lemma brightness_tracks_step tS m mu i :
  brightness_tracks tS m mu -> mu <= timer_micros i ->
  brightness_tracks tS (fst (step i m)) (timer_micros i).
Proof.
  intros Hk Hle. apply (brightness_tracks_later _ _ _ _ Hle) in Hk.
  destruct Hk as (HtS & Hlen & Hb).
  destruct (pc m) eqn:Hpc.
  - destruct (step_cases i m Hpc)
      as [H|[[H1 H2]|[(H1 & H2 & H3 & H4)|[(H1 & H2 & H3 & H4)|(H1 & H2 & H3)]]]].
    + rewrite step_panic by assumption. repeat split; assumption.
    + rewrite step_skip by assumption. repeat split; assumption.
    + rewrite step_halt by assumption. repeat split; assumption.
    + rewrite step_fade by assumption. cbn [fst].
      repeat split; cbn [leds tStart brightness]; try assumption.
      * now rewrite renderFrame_length.
      * right. exists (timer_micros i). split; [lia|].
        unfold elapsed in H3. now rewrite <- HtS.
    + rewrite step_render by assumption. cbn [fst].
      repeat split; cbn [leds tStart brightness]; try assumption.
      now rewrite renderFrame_length.
  - rewrite step_panicSpin by assumption. repeat split; assumption.
  - rewrite step_haltedSpin by assumption. repeat split; assumption.
Qed.

Lemma counter_monotone_app mu ins i :
  counter_monotone mu (ins ++ [i]) ->
  counter_monotone mu ins /\ last_counter mu ins <= timer_micros i.
Proof.
  revert mu. induction ins as [|j ins IH]; intros mu H.
  - cbn in *. tauto.
  - cbn [app counter_monotone] in H. destruct H as [H1 H2].
    apply IH in H2 as [H2 H3]. split; [split; assumption|exact H3].
Qed.

Lemma brightness_tracks_run_from tS m mu ins :
  brightness_tracks tS m mu -> counter_monotone mu ins ->
  brightness_tracks tS (fst (run_from m ins)) (last_counter mu ins).
Proof.
  revert m mu. induction ins as [|i ins IH]; intros m mu Hk Hmono.
  - exact Hk.
  - destruct Hmono as [Hle Hmono]. cbn [run_from].
    pose proof (brightness_tracks_step _ _ _ i Hk Hle) as Hk'.
    destruct (step i m) as [m1 e1]. cbn [fst] in Hk'.
    specialize (IH _ _ Hk' Hmono).
    destruct (run_from m1 ins) as [m2 e2]. exact IH.
Qed.

Lemma run_fst (b : Input) (ins : list Input) :
  fst (run b ins) = fst (run_from (fst (boot b)) ins).
Proof.
  unfold run. destruct (boot b) as [m0 e0]. cbn [fst].
  destruct (run_from m0 ins) as [m e]. reflexivity.
Qed.

Lemma rendered_frame (tS : F) (m : Machine) (mu : Z) (i : Input) :
  limit_monotone ->
  brightness_tracks tS m mu -> mu <= timer_micros i ->
  renders m i = true ->
  let t := elapsed m i in
  leds (fst (step i m)) = frameLeds t /\
  strip (fst (step i m)) = frameLeds t /\
  brightness (fst (step i m)) = frameBrightness t /\
  shown (snd (step i m)) = [(frameLeds t, frameBrightness t)].
Proof.
  intros Hlaw (HtS & Hlen & Hb) Hle Hr t. subst t.
  unfold renders in Hr. destruct (pc m) eqn:Hpc; try discriminate.
  apply andb_true_iff in Hr as [Hr Hnot].
  apply andb_true_iff in Hr as [Hlow Hdue].
  apply negb_true_iff in Hlow, Hnot.
  unfold frameLeds, frameBrightness.
  destruct (past_limit (elapsed m i)) eqn:Hpast.
  - cbn [andb] in Hnot. rewrite step_fade by assumption.
    cbn [fst snd leds strip brightness shown].
    rewrite (renderFrame_cleared _ _ (leds m)) by assumption. auto.
  - rewrite step_render by assumption.
    cbn [fst snd leds strip brightness shown].
    rewrite (renderFrame_cleared _ _ (leds m)) by assumption.
    destruct Hb as [Hb|(a & Ha & Hb)].
    + rewrite Hb. auto.
    + exfalso. apply (Hlaw tS a (timer_micros i)) in Hb; [|lia].
      unfold elapsed in Hpast. rewrite HtS in Hpast. congruence.
Qed.

Lemma boot_brightness_tracks (b : Input) :
  brightness_tracks (getTimeSeconds (timer_micros b)) (fst (boot b)) (timer_micros b).
Proof. rewrite boot_eq. repeat split. left. reflexivity. Qed.

(** C6: take any two histories since start-up, over a counter that never
    runs backwards; if each goes on to render a frame, and the two frames
    are for the same elapsed time, then the two passes hand the same
    buffer and the same brightness to the strip, namely the frame of that
    elapsed time. *)
Theorem frame_is_a_function_of_elapsed_time
    (b1 b2 : Input) (ins1 ins2 : list Input) (i1 i2 : Input) :
  limit_monotone ->
  counter_monotone (timer_micros b1) (ins1 ++ [i1]) ->
  counter_monotone (timer_micros b2) (ins2 ++ [i2]) ->
  let m1 := fst (run b1 ins1) in
  let m2 := fst (run b2 ins2) in
  renders m1 i1 = true -> renders m2 i2 = true ->
  elapsed m1 i1 = elapsed m2 i2 ->
  shown (snd (step i1 m1)) = [(frameLeds (elapsed m1 i1), frameBrightness (elapsed m1 i1))] /\
  shown (snd (step i2 m2)) = shown (snd (step i1 m1)) /\
  leds (fst (step i2 m2)) = leds (fst (step i1 m1)) /\
  strip (fst (step i2 m2)) = strip (fst (step i1 m1)) /\
  brightness (fst (step i2 m2)) = brightness (fst (step i1 m1)).
Proof.
  intros Hlaw Hmono1 Hmono2 m1 m2 Hr1 Hr2 Ht. subst m1 m2.
  rewrite !run_fst in *.
  apply counter_monotone_app in Hmono1 as [Hmono1 Hle1].
  apply counter_monotone_app in Hmono2 as [Hmono2 Hle2].
  pose proof (brightness_tracks_run_from _ _ _ _ (boot_brightness_tracks b1) Hmono1) as Hk1.
  pose proof (brightness_tracks_run_from _ _ _ _ (boot_brightness_tracks b2) Hmono2) as Hk2.
  destruct (rendered_frame _ _ _ _ Hlaw Hk1 Hle1 Hr1) as (A1 & A2 & A3 & A4).
  destruct (rendered_frame _ _ _ _ Hlaw Hk2 Hle2 Hr2) as (B1 & B2 & B3 & B4).
  rewrite A1, A2, A3, A4, B1, B2, B3, B4, Ht. auto.
Qed.

(** *** Where the cores end up *)

(** In the buffer handed to the strip the first two logical positions hold
    the centre-anchor colour, positions 2 and [NUM_LEDS - 3] hold main-body
    colours, and the last two hold the right-core colour with an echo
    added: nothing of what the left-core loop wrote is left. *)
Lemma cores_in_submitted_buffer (t rampMul : F) (l : list CRGB) :
  length l = NUM_LEDS ->
  let out := renderFrame t rampMul l in
  let finalL := fst (finalAmps t rampMul) in
  let finalR := snd (finalAmps t rampMul) in
  let rgb := bodyRGB t (mandalaModeOf t) finalL finalR in
  led out (spiralAt 0) = centerPixel finalL finalR /\
  led out (spiralAt 1) = centerPixel finalL finalR /\
  led out (spiralAt 2) = bodyPixel (rgb 2%nat) /\
  led out (spiralAt 17) = bodyPixel (rgb 17%nat) /\
  led out (spiralAt 18) = withEcho (rightCorePixel t finalR 18) (rgb 16%nat) /\
  led out (spiralAt 19) = withEcho (rightCorePixel t finalR 19) (rgb 17%nat).
Proof.
  intros Hlen out finalL finalR rgb. subst out finalL finalR rgb.
  rewrite !renderFrame_at by (assumption || (unfold NUM_LEDS; lia)).
  unfold submittedPixel. destruct (finalAmps t rampMul) as [finalL finalR].
  repeat split.
Qed.

End ControlFlow.

(** ** Exact real arithmetic: the values of the safety envelope and the phase *)

Section RealValues.

Local Open Scope R_scope.

Ltac real_ops :=
  cbn [F lit of_int to_int fadd fsub fmul fdiv fopp flt fle sinf expf fabs
       fmodf TWO_PI RealArith] in *.

Lemma Rltb_true (x y : R) : x < y -> Rltb x y = true.
Proof. intros H. unfold Rltb. destruct (Rlt_dec x y); [reflexivity|contradiction]. Qed.

Lemma Rltb_false (x y : R) : y <= x -> Rltb x y = false.
Proof. intros H. unfold Rltb. destruct (Rlt_dec x y); [lra|reflexivity]. Qed.

Lemma Rleb_true (x y : R) : x <= y -> Rleb x y = true.
Proof. intros H. unfold Rleb. destruct (Rle_dec x y); [reflexivity|contradiction]. Qed.

Lemma Rleb_false (x y : R) : y < x -> Rleb x y = false.
Proof. intros H. unfold Rleb. destruct (Rle_dec x y); [lra|reflexivity]. Qed.

Lemma Rtrunc_nonneg (x : R) (z : Z) :
  IZR z <= x < IZR z + 1 -> 0 <= x -> Rtrunc x = z.
Proof.
  intros Hz Hx. unfold Rtrunc. destruct (Rle_dec 0 x); [|contradiction].
  symmetry. apply Int_part_spec. lra.
Qed.

Lemma Rtrunc_neg (x : R) (z : Z) :
  IZR z - 1 < x <= IZR z -> x < 0 -> Rtrunc x = z.
Proof.
  intros Hz Hx. unfold Rtrunc. destruct (Rle_dec 0 x); [lra|].
  assert (Int_part (- x) = (- z)%Z) as ->; [|lia].
  symmetry. apply Int_part_spec. rewrite opp_IZR. lra.
Qed.

Lemma clamp01_low (x : R) : x <= 0 -> @clamp01 RealArith x = 0.
Proof.
  intros H. unfold clamp01, f0, f1. real_ops.
  unfold Rltb. repeat destruct (Rlt_dec _ _); lra.
Qed.

Lemma clamp01_mid (x : R) : 0 <= x <= 1 -> @clamp01 RealArith x = x.
Proof.
  intros H. unfold clamp01, f0, f1. real_ops.
  unfold Rltb. repeat destruct (Rlt_dec _ _); lra.
Qed.

Lemma clamp01_high (x : R) : 1 <= x -> @clamp01 RealArith x = 1.
Proof.
  intros H. unfold clamp01, f0, f1. real_ops.
  unfold Rltb. repeat destruct (Rlt_dec _ _); lra.
Qed.

Lemma rampMulOf_ramp (t : R) :
  0 <= t <= 180 ->
  @rampMulOf RealArith t = (t / 180) * (t / 180) * (3 - 2 * (t / 180)).
Proof.
  intros H. unfold rampMulOf, RAMP_IN_SECONDS. real_ops.
  rewrite clamp01_mid by lra. lra.
Qed.

Lemma rampMulOf_full (t : R) : 180 <= t -> @rampMulOf RealArith t = 1.
Proof.
  intros H. unfold rampMulOf, RAMP_IN_SECONDS. real_ops.
  rewrite clamp01_high by lra. lra.
Qed.

Lemma rampMulOf_zero (t : R) : t <= 0 -> @rampMulOf RealArith t = 0.
Proof.
  intros H. unfold rampMulOf, RAMP_IN_SECONDS. real_ops.
  rewrite clamp01_low by lra. lra.
Qed.

Lemma fadeFrac_fading (t : R) :
  1800 <= t <= 1815 -> @fadeFrac RealArith t = 1 - (t - 1800) / 15.
Proof.
  intros H. unfold fadeFrac, MAX_SESSION_SECONDS, f1. real_ops.
  rewrite clamp01_mid by lra. lra.
Qed.

Lemma fadeFrac_over (t : R) : 1815 <= t -> @fadeFrac RealArith t = 0.
Proof.
  intros H. unfold fadeFrac, MAX_SESSION_SECONDS, f1. real_ops.
  rewrite clamp01_low by lra. lra.
Qed.

Lemma past_limit_true (t : R) : 1800 < t -> @past_limit RealArith t = true.
Proof.
  intros H. unfold past_limit, MAX_SESSION_SECONDS. real_ops.
  apply Rltb_true. lra.
Qed.

Lemma past_limit_false (t : R) : t <= 1800 -> @past_limit RealArith t = false.
Proof.
  intros H. unfold past_limit, MAX_SESSION_SECONDS. real_ops.
  apply Rltb_false. lra.
Qed.

(** The fade reaches 0.01 at 1800 + 15 * 0.99 = 1814.85 seconds. *)
Lemma fade_done_true (t : R) : 181485 / 100 <= t -> @fade_done RealArith t = true.
Proof.
  intros H. unfold fade_done. real_ops. apply Rleb_true.
  destruct (Rle_dec t 1815).
  - rewrite fadeFrac_fading by lra. lra.
  - rewrite fadeFrac_over by lra. lra.
Qed.

Lemma fade_done_false (t : R) :
  1800 <= t < 181485 / 100 -> @fade_done RealArith t = false.
Proof.
  intros H. unfold fade_done. real_ops. apply Rleb_false.
  rewrite fadeFrac_fading by lra. lra.
Qed.

Lemma smoothstep_range (x : R) :
  0 <= x <= 1 -> 0 <= x * x * (3 - 2 * x) <= 1.
Proof.
  intros H. split.
  - apply Rmult_le_pos; nra.
  - assert (0 <= (1 - x) * (1 - x) * (1 + 2 * x)) by (apply Rmult_le_pos; nra).
    nra.
Qed.

Lemma smoothstep_increasing (x y : R) :
  0 <= x -> x < y -> y <= 1 ->
  x * x * (3 - 2 * x) < y * y * (3 - 2 * y).
Proof.
  intros Hx Hxy Hy.
  assert (0 < (y - x) * (3 * (x + y) - 2 * (x * x + x * y + y * y))) as H.
  { apply Rmult_lt_0_compat; [lra|]. nra. }
  nra.
Qed.

Lemma mandalaModeOf_eq (t : R) (k : Z) :
  (0 <= k)%Z -> IZR k * 30 <= t < IZR k * 30 + 30 ->
  @mandalaModeOf RealArith t = Z.rem k 3.
Proof.
  intros Hk Ht. unfold mandalaModeOf, MODE_DURATION. real_ops.
  apply IZR_le in Hk.
  rewrite (Rtrunc_nonneg _ k) by lra. reflexivity.
Qed.

Example mode_selection :
  @mandalaModeOf RealArith 15 = 0%Z /\
  @mandalaModeOf RealArith 45 = 1%Z /\
  @mandalaModeOf RealArith 75 = 2%Z /\
  @mandalaModeOf RealArith 100 = 0%Z.
Proof.
  repeat split.
  - apply (mandalaModeOf_eq 15 0); [lia|lra].
  - apply (mandalaModeOf_eq 45 1); [lia|lra].
  - apply (mandalaModeOf_eq 75 2); [lia|lra].
  - apply (mandalaModeOf_eq 100 3); [lia|lra].
Qed.

(** *** The phase functions *)

Lemma Rfmod_eq (x y : R) (z : Z) :
  Rtrunc (x / y) = z -> Rfmod x y = x - IZR z * y.
Proof. intros H. unfold Rfmod. now rewrite H. Qed.

Lemma Rfmod_one_range (x : R) : 0 <= x -> 0 <= Rfmod x (1 / 1) < 1.
Proof.
  intros Hx. unfold Rfmod, Rtrunc.
  replace (x / (1 / 1)) with x by lra.
  destruct (Rle_dec 0 x); [|contradiction].
  pose proof (base_Int_part x). lra.
Qed.

Lemma phaseOf_range (t f : R) :
  0 <= t * f -> 0 <= @phaseOf RealArith t f < 1.
Proof.
  intros H. unfold phaseOf, f1. real_ops. now apply Rfmod_one_range.
Qed.

Lemma sin_two_pi_lower (p s : R) :
  0 <= p < 1 -> 0 <= s <= 1 / 2 -> 0 <= p + sin (2 * PI * p) * s.
Proof.
  intros Hp Hs. pose proof PI_RGT_0 as Hpi.
  destruct (Rle_dec p (1 / 2)) as [Hlow|Hhigh].
  - assert (0 <= sin (2 * PI * p)) as Hsin by (apply sin_ge_0; nra).
    nra.
  - pose proof (SIN_bound (2 * PI * p)) as [Hsin _]. nra.
Qed.

(** C7: for a time and a frequency whose product is not negative (the
    firmware passes the elapsed session time and a positive frequency) and
    a sync strength of at most one half (the specification requires it to
    be small, at most about 0.2; the firmware passes 0.15), the enhanced
    phase lies in [0,1); and with sync strength 0 it is the plain phase,
    whatever the time and the frequency. *)
Theorem enhanced_phase_range (t f s : R) :
  (0 <= t * f -> s <= 1 / 2 -> 0 <= @getEnhancedPhase RealArith t f s < 1) /\
  (s = 0 -> @getEnhancedPhase RealArith t f s = @phaseOf RealArith t f).
Proof.
  split.
  - intros Htf Hs. unfold getEnhancedPhase. cbv zeta.
    pose proof (phaseOf_range t f Htf) as Hbase.
    unfold USE_PHASE_ENHANCEMENT, f0, f1. real_ops. cbn [andb].
    unfold Rltb. destruct (Rlt_dec (0 / 1) s) as [Hpos|Hneg]; [|assumption].
    apply Rfmod_one_range. apply sin_two_pi_lower; lra.
  - intros ->. unfold getEnhancedPhase, USE_PHASE_ENHANCEMENT, f0. cbv zeta.
    real_ops. rewrite Rltb_false by lra. reflexivity.
Qed.

Lemma enhanced_phase_range_witness :
  0 <= @getEnhancedPhase RealArith 2 (58 / 10)%R (15 / 100)%R < 1 /\
  @getEnhancedPhase RealArith 2 (58 / 10)%R 0 = @phaseOf RealArith 2 (58 / 10)%R.
Proof.
  split.
  - apply (enhanced_phase_range 2 (58 / 10) (15 / 100)); lra.
  - apply (enhanced_phase_range 2 (58 / 10) 0). reflexivity.
Defined.

(** *** Concrete runs *)

Lemma real_limit_monotone : @limit_monotone RealArith.
Proof.
  intros tS a b Hab. unfold past_limit, getTimeSeconds, MAX_SESSION_SECONDS.
  real_ops. unfold Rltb.
  destruct (Rlt_dec _ _) as [Ha|Ha]; [intros _|discriminate].
  apply IZR_le in Hab.
  destruct (Rlt_dec _ _) as [Hb|Hb]; [reflexivity|]. exfalso. apply Hb. lra.
Qed.

Lemma elapsed_after_boot (b i : Input) :
  @elapsed RealArith (fst (boot b)) i =
    IZR (timer_micros i) * (1 / 1000000) - IZR (timer_micros b) * (1 / 1000000).
Proof. reflexivity. Qed.

(** C2 on a press followed by a release: the loop of lines 300-306, whose
    comment reads 'Keep checking - allow restart if button released',
    polls the pin and sees the release, but never leaves.  After two turns
    with the pin high the machine is still in the panic loop with a black
    strip; no frame is shown, only the release line is printed, once per
    turn. *)
Lemma panic_release_does_not_resume :
  let b := mkInput false 0 0 (Some 1%Z) in
  let pressed := mkInput true 20 20000 (Some 1%Z) in
  let released := mkInput false 2000 2000000 (Some 1%Z) in
  let m := fst (@run RealArith b [pressed]) in
  pc m = PanicSpin /\
  pc (fst (run_from m [released; released])) = PanicSpin /\
  strip (fst (run_from m [released; released])) = allBlack /\
  shown (snd (run_from m [released; released])) = [] /\
  printed (snd (run_from m [released; released])) =
    ["Panic button released. System halted.";
     "Panic button released. System halted."]%string.
Proof. cbv zeta. repeat split; reflexivity. Qed.

Lemma panic_halt_is_permanent_witness :
  let b := mkInput false 0 0 (Some 1%Z) in
  let pressed := mkInput true 20 20000 (Some 1%Z) in
  let released := mkInput false 2000 2000000 (Some 1%Z) in
  let m := fst (step pressed (fst (@boot RealArith b))) in
  reachable m /\ pc m = PanicSpin /\
  fst (run_from m [released; pressed; released]) = m /\
  shown (snd (run_from m [released; pressed; released])) = [].
Proof.
  cbv zeta.
  split; [apply reach_step, reach_boot|]. split; [reflexivity|].
  destruct (panic_halt_is_permanent
              (fst (step (mkInput true 20 20000 (Some 1%Z))
                      (fst (@boot RealArith (mkInput false 0 0 (Some 1%Z))))))
              [mkInput false 2000 2000000 (Some 1%Z);
               mkInput true 20 20000 (Some 1%Z);
               mkInput false 2000 2000000 (Some 1%Z)]
              (reach_step _ _ (reach_boot _)) eq_refl) as (H1 & _ & H3 & _).
  split; assumption.
Defined.

Lemma halted_entry_witness :
  let m := fst (@boot RealArith (mkInput false 0 0 (Some 1%Z))) in
  let i := mkInput false 1816000 1816000000 (Some 1%Z) in
  pc m = Running /\
  pc (fst (step i m)) = HaltedSpin /\
  strip (fst (step i m)) = allBlack /\
  printed (snd (step i m)) = ["Session timeout reached. Shutting down."%string].
Proof.
  cbv zeta. split; [reflexivity|].
  destruct (halted_entry_and_absorbing
              (fst (@boot RealArith (mkInput false 0 0 (Some 1%Z))))
              (mkInput false 1816000 1816000000 (Some 1%Z)) eq_refl)
    as [Hiff Hthen].
  assert (pc (fst (step (mkInput false 1816000 1816000000 (Some 1%Z))
                     (fst (@boot RealArith (mkInput false 0 0 (Some 1%Z))))))
          = HaltedSpin) as Hhalt.
  { apply Hiff. split; [reflexivity|]. split; [reflexivity|].
    rewrite elapsed_after_boot. cbn [timer_micros].
    split; [apply past_limit_true; lra|apply fade_done_true; lra]. }
  split; [exact Hhalt|]. apply Hthen in Hhalt as (_ & H2 & H3 & _).
  split; assumption.
Defined.

(** C5, as stated, fails: with [timerBegin] returning NULL, and the
    counter therefore stuck at 0, [setup()] prints the same lines as on
    success, reports nothing, and the first due pass of [loop()] renders
    a frame. *)
Lemma timer_failure_goes_unreported :
  let b := mkInput false 0 0 None in
  let i := mkInput false 10 0 None in
  timer (fst (@boot RealArith b)) = None /\
  pc (fst (@boot RealArith b)) = Running /\
  printed (snd (@boot RealArith b)) =
    ["========================================";
     "ESP32 Theta Entrainment System";
     "Research-Grade Version";
     "========================================";
     "Hardware timer initialized";
     "Panic button configured on pin 14";
     "System ready. Session started.";
     "========================================"]%string /\
  renders (fst (@boot RealArith b)) i = true /\
  length (shown (snd (step i (fst (@boot RealArith b))))) = 1%nat.
Proof.
  cbv zeta. repeat split.
  - unfold renders. rewrite elapsed_after_boot. cbn [timer_micros].
    rewrite past_limit_false by lra. reflexivity.
  - rewrite step_render; [reflexivity..|].
    rewrite elapsed_after_boot. cbn [timer_micros].
    apply past_limit_false. lra.
Qed.

Lemma run_one_frame_at_50 :
  fst (@run RealArith (mkInput false 0 1000000 (Some 1%Z))
         [mkInput false 50 51000000 (Some 1%Z)]) =
    mkMachine (@frameLeds RealArith (51000000 * (1 / 1000000) - 1000000 * (1 / 1000000))%R)
      GLOBAL_BRIGHTNESS
      (@frameLeds RealArith (51000000 * (1 / 1000000) - 1000000 * (1 / 1000000))%R)
      (Some 1%Z) (50 mod 2 ^ 32) (getTimeSeconds 1000000) Running.
Proof.
  rewrite run_fst. cbn [run_from].
  rewrite step_render; [reflexivity|reflexivity|reflexivity|reflexivity|].
  rewrite elapsed_after_boot. cbn [timer_micros].
  apply past_limit_false. lra.
Qed.

Lemma frame_function_witness :
  let b1 := mkInput false 0 0 (Some 1%Z) in
  let i1 := mkInput false 100 200000000 (Some 1%Z) in
  let b2 := mkInput false 0 1000000 (Some 1%Z) in
  let j := mkInput false 50 51000000 (Some 1%Z) in
  let i2 := mkInput false 100 201000000 (Some 1%Z) in
  let m1 := fst (@run RealArith b1 []) in
  let m2 := fst (@run RealArith b2 [j]) in
  renders m1 i1 = true /\ renders m2 i2 = true /\
  elapsed m1 i1 = elapsed m2 i2 /\
  shown (snd (step i2 m2)) = shown (snd (step i1 m1)) /\
  strip (fst (step i2 m2)) = strip (fst (step i1 m1)) /\
  brightness (fst (step i2 m2)) = brightness (fst (step i1 m1)).
Proof.
  cbv zeta.
  assert (renders (fst (@run RealArith (mkInput false 0 0 (Some 1%Z)) []))
            (mkInput false 100 200000000 (Some 1%Z)) = true) as Hr1.
  { rewrite run_fst. cbn [run_from fst]. unfold renders.
    rewrite elapsed_after_boot. cbn [timer_micros].
    rewrite past_limit_false by lra. reflexivity. }
  assert (renders (fst (@run RealArith (mkInput false 0 1000000 (Some 1%Z))
                          [mkInput false 50 51000000 (Some 1%Z)]))
            (mkInput false 100 201000000 (Some 1%Z)) = true) as Hr2.
  { rewrite run_one_frame_at_50. unfold renders. cbn [pc].
    rewrite past_limit_false; [reflexivity|].
    unfold elapsed, getTimeSeconds. cbn [tStart timer_micros]. real_ops. lra. }
  assert (elapsed (fst (@run RealArith (mkInput false 0 0 (Some 1%Z)) []))
            (mkInput false 100 200000000 (Some 1%Z)) =
          elapsed (fst (@run RealArith (mkInput false 0 1000000 (Some 1%Z))
                          [mkInput false 50 51000000 (Some 1%Z)]))
            (mkInput false 100 201000000 (Some 1%Z))) as Ht.
  { rewrite run_one_frame_at_50. rewrite run_fst. cbn [run_from fst].
    rewrite elapsed_after_boot.
    unfold elapsed, getTimeSeconds. cbn [tStart timer_micros]. real_ops. lra. }
  destruct (frame_is_a_function_of_elapsed_time
              (mkInput false 0 0 (Some 1%Z)) (mkInput false 0 1000000 (Some 1%Z))
              [] [mkInput false 50 51000000 (Some 1%Z)]
              (mkInput false 100 200000000 (Some 1%Z))
              (mkInput false 100 201000000 (Some 1%Z))
              real_limit_monotone
              ltac:(cbn; lia) ltac:(cbn; lia)
              Hr1 Hr2 Ht) as (_ & H2 & _ & H4 & H5).
  repeat split; assumption.
Defined.

Lemma echo_addition_witness :
  let l := replicate NUM_LEDS (mkCRGB 250 128 0) in
  let old := led l (spiralAt (5 + REFLECTION_OFFSET)) in
  let new := led (@echoStep RealArith (200, 100, 50)%Z 5 l)
                 (spiralAt (5 + REFLECTION_OFFSET)) in
  length l = NUM_LEDS /\
  (red old <= red new <= 255)%Z /\
  (green old <= green new <= 255)%Z /\
  (blue old <= blue new <= 255)%Z.
Proof.
  cbv zeta. split; [reflexivity|].
  destruct (@echo_addition_saturates RealArith (200, 100, 50)%Z 5
              (replicate NUM_LEDS (mkCRGB 250 128 0)) eq_refl
              ltac:(unfold NUM_LEDS; lia)
              ltac:(cbn; lia) ltac:(cbn; lia) ltac:(cbn; lia))
    as ((Hr & _) & (Hg & _) & (Hb & _)).
  repeat split; (apply Hr || apply Hg || apply Hb).
Defined.

Lemma only_last_positions_witness :
  let out := @renderFrame RealArith 900 1 allBlack in
  let finalL := fst (@finalAmps RealArith 900 1) in
  let finalR := snd (@finalAmps RealArith 900 1) in
  let rgb := @bodyRGB RealArith 900 (@mandalaModeOf RealArith 900) finalL finalR in
  led out (spiralAt 5) = bodyPixel (rgb 5%nat) /\
  led out (spiralAt 19) =
    withEcho (@rightCorePixel RealArith 900 finalR 19) (rgb 17%nat).
Proof.
  cbv zeta. split.
  - apply (@only_last_positions_keep_echo RealArith 900 1 allBlack 5 eq_refl).
    unfold NUM_LEDS. lia.
  - apply (@only_last_positions_keep_echo RealArith 900 1 allBlack 19 eq_refl).
    unfold NUM_LEDS, REFLECTION_OFFSET. lia.
Defined.

(** *** The frame at 100 seconds *)

Lemma sin_two_pi_int (k : Z) : sin (2 * PI * IZR k) = 0.
Proof.
  apply sin_eq_0_1. exists (2 * k)%Z. rewrite mult_IZR. lra.
Qed.

Lemma rampMulOf_100 : @rampMulOf RealArith 100 = 425 / 729.
Proof. rewrite rampMulOf_ramp by lra. lra. Qed.

Lemma finalAmps_100 :
  @finalAmps RealArith 100 (@rampMulOf RealArith 100) = (1445 / 5832, 1445 / 5832).
Proof.
  rewrite rampMulOf_100.
  unfold finalAmps, USE_SINUSOIDAL_MODULATION, MICRO_ENABLED.
  cbv beta iota zeta.
  unfold sinModSmooth, LEFT_FREQ_HZ, RIGHT_FREQ_HZ, BREATH_FREQ_HZ, f1.
  real_ops.
  replace (2 * PI * (100 * (58 / 10))) with (2 * PI * IZR 580) by lra.
  replace (2 * PI * (100 * (62 / 10))) with (2 * PI * IZR 620) by lra.
  replace (2 * PI * (12 / 100) * 100) with (2 * PI * IZR 12) by lra.
  rewrite !sin_two_pi_int.
  rewrite !clamp01_mid by lra.
  f_equal; lra.
Qed.

Lemma scaled_eq (c : CRGB) (amp : R) (r g b : Z) :
  (0 <= r <= 255)%Z -> (0 <= g <= 255)%Z -> (0 <= b <= 255)%Z ->
  0 <= amp ->
  IZR r <= IZR (red c) * amp < IZR r + 1 ->
  IZR g <= IZR (green c) * amp < IZR g + 1 ->
  IZR b <= IZR (blue c) * amp < IZR b + 1 ->
  @scaled RealArith c amp = mkCRGB r g b.
Proof.
  intros Hr Hg Hb Hamp Hr' Hg' Hb'. unfold scaled. real_ops.
  assert (0 <= IZR r) by (apply IZR_le; lia).
  assert (0 <= IZR g) by (apply IZR_le; lia).
  assert (0 <= IZR b) by (apply IZR_le; lia).
  rewrite (Rtrunc_nonneg _ r), (Rtrunc_nonneg _ g), (Rtrunc_nonneg _ b) by lra.
  unfold safeClampInt.
  repeat match goal with
  | |- context [(?x <? 0)%Z] => destruct (Z.ltb_spec x 0); [lia|]
  | |- context [(?x >? 255)%Z] =>
      rewrite (Z.gtb_ltb x 255); destruct (Z.ltb_spec 255 x); [lia|]
  end.
  reflexivity.
Qed.

Lemma centerPixel_100 :
  @centerPixel RealArith (1445 / 5832)%R (1445 / 5832)%R = mkCRGB 63 49 22.
Proof.
  unfold centerPixel. cbv zeta. real_ops.
  rewrite clamp01_mid by lra.
  apply scaled_eq; cbn [red green blue centerColor]; try lia; lra.
Qed.

(** [setup()] at counter 0 and one pass at 100 seconds: the strip shows the
    frame for 100 seconds, whose centre is lit. *)
Lemma machine_after_frame_at_100 :
  fst (step (mkInput false 100000 100000000 None)
         (fst (@boot RealArith (mkInput false 0 0 None)))) =
    mkMachine (@frameLeds RealArith 100) GLOBAL_BRIGHTNESS (@frameLeds RealArith 100)
      None (100000 mod 2 ^ 32) (getTimeSeconds 0) Running.
Proof.
  rewrite step_render; [|reflexivity|reflexivity|reflexivity|].
  - cbn [fst]. rewrite elapsed_after_boot. cbn [timer_micros].
    replace (100000000 * (1 / 1000000) - 0 * (1 / 1000000)) with 100 by lra.
    reflexivity.
  - rewrite elapsed_after_boot. cbn [timer_micros].
    apply past_limit_false. lra.
Qed.

Lemma frame_at_100_centre :
  led (@frameLeds RealArith 100) (spiralAt 0) = mkCRGB 63 49 22.
Proof.
  destruct (@cores_in_submitted_buffer RealArith 100 (@rampMulOf RealArith 100)
              allBlack eq_refl) as (H0 & _).
  unfold frameLeds. rewrite H0, finalAmps_100. cbn [fst snd].
  apply centerPixel_100.
Qed.

Lemma panic_blackout_witness :
  let m := fst (step (mkInput false 100000 100000000 None)
                  (fst (@boot RealArith (mkInput false 0 0 None)))) in
  let i := mkInput true 100020 100020000 None in
  reachable m /\
  led (strip m) (spiralAt 0) = mkCRGB 63 49 22 /\
  leds (fst (step i m)) = allBlack /\
  strip (fst (step i m)) = allBlack /\
  pc (fst (step i m)) = PanicSpin /\
  shown (snd (step i m)) = [(allBlack, GLOBAL_BRIGHTNESS)].
Proof.
  cbv zeta.
  pose proof (@reach_step RealArith _ (mkInput false 100000 100000000 None)
                (reach_boot (mkInput false 0 0 None))) as Hreach.
  destruct (panic_blackout_in_one_pass _ (mkInput true 100020 100020000 None) Hreach)
    as [Hlow _].
  destruct (Hlow eq_refl) as (Hleds & Hstrip & Hrun).
  split; [exact Hreach|].
  split; [rewrite machine_after_frame_at_100; apply frame_at_100_centre|].
  split; [exact Hleds|]. split; [exact Hstrip|].
  destruct Hrun as [Hpc Hev]; [rewrite machine_after_frame_at_100; reflexivity|].
  split; [exact Hpc|].
  rewrite Hev, machine_after_frame_at_100. reflexivity.
Defined.

(** At 100 seconds the left band sits at 0.6 of the ring. *)
Lemma spiralMask_100_left (i : nat) (pos : R) :
  IZR (Z.of_nat i) / 20 = pos -> 0 <= pos < 1 / 10 ->
  @spiralMask RealArith i 100 (25 / 100 + 58 / 10 * (2 / 100))%R = 4 / 10 - 2 * pos.
Proof.
  intros Hpos Hrange. unfold spiralMask, f1. cbv zeta. real_ops.
  change (Z.of_nat NUM_LEDS) with 20%Z. rewrite Hpos.
  rewrite (Rfmod_eq _ _ 36) by (apply Rtrunc_nonneg; lra).
  rewrite Rabs_left1 by lra.
  rewrite Rltb_true by lra.
  rewrite clamp01_mid by lra. lra.
Qed.

Lemma leftCorePixel_100_0 :
  @leftCorePixel RealArith 100 (1445 / 5832)%R 0 = mkCRGB 25 11 3.
Proof.
  unfold leftCorePixel, LEFT_FREQ_HZ. cbv zeta. real_ops.
  rewrite (spiralMask_100_left 0 0) by (change (Z.of_nat 0) with 0%Z; lra).
  apply scaled_eq; cbn [red green blue leftColor]; try lia; lra.
Qed.

Lemma leftCorePixel_100_1 :
  @leftCorePixel RealArith 100 (1445 / 5832)%R 1 = mkCRGB 18 8 2.
Proof.
  unfold leftCorePixel, LEFT_FREQ_HZ. cbv zeta. real_ops.
  rewrite (spiralMask_100_left 1 (1 / 20)) by (change (Z.of_nat 1) with 1%Z; lra).
  apply scaled_eq; cbn [red green blue leftColor]; try lia; lra.
Qed.

(** C8 at 100 seconds: the left-core loop computes (25,11,3) and (18,8,2)
    for the first two logical positions, but the strip receives the
    centre-anchor colour (63,49,22) at both, and a main-body colour at the
    third. *)
Theorem left_core_is_painted_over :
  let out := @frameLeds RealArith 100 in
  let finalL := fst (@finalAmps RealArith 100 (@rampMulOf RealArith 100)) in
  let finalR := snd (@finalAmps RealArith 100 (@rampMulOf RealArith 100)) in
  @leftCorePixel RealArith 100 finalL 0 = mkCRGB 25 11 3 /\
  @leftCorePixel RealArith 100 finalL 1 = mkCRGB 18 8 2 /\
  led out (spiralAt 0) = mkCRGB 63 49 22 /\
  led out (spiralAt 1) = mkCRGB 63 49 22 /\
  led out (spiralAt 2) =
    bodyPixel (@bodyRGB RealArith 100 (@mandalaModeOf RealArith 100) finalL finalR 2).
Proof.
  cbv zeta.
  destruct (@cores_in_submitted_buffer RealArith 100 (@rampMulOf RealArith 100)
              allBlack eq_refl) as (H0 & H1 & H2 & _).
  unfold frameLeds. rewrite H0, H1, H2.
  rewrite finalAmps_100. cbn [fst snd].
  rewrite centerPixel_100, leftCorePixel_100_0, leftCorePixel_100_1.
  repeat split.
Qed.

End RealValues.

(** ** Further properties of the renderer and the frame loop *)

Section BufferAndGate.

Context {FA : FloatArith}.

(** X1: [safeClampInt] maps every [int] into 0..255: it is the identity
    inside the range, 0 below it and 255 above it, does nothing when
    applied twice, and keeps the order of its arguments. *)
Theorem safeClampInt_clamps (v w : Z) :
  0 <= safeClampInt v <= 255 /\
  (0 <= v <= 255 -> safeClampInt v = v) /\
  (v < 0 -> safeClampInt v = 0) /\
  (255 < v -> safeClampInt v = 255) /\
  safeClampInt (safeClampInt v) = safeClampInt v /\
  (v <= w -> safeClampInt v <= safeClampInt w).
Proof.
  unfold safeClampInt. rewrite !Z.gtb_ltb.
  destruct (Z.ltb_spec v 0), (Z.ltb_spec 255 v), (Z.ltb_spec w 0),
    (Z.ltb_spec 255 w); cbn; repeat split; intros; try lia;
    repeat match goal with
    | |- context [(?a <? ?b)] => destruct (Z.ltb_spec a b)
    end; lia.
Qed.

Lemma safeClampInt_clamps_witness :
  safeClampInt 200 = 200 /\ safeClampInt (-7) = 0 /\ safeClampInt 1000 = 255 /\
  safeClampInt (-7) <= safeClampInt 1000.
Proof.
  split; [apply (safeClampInt_clamps 200 200); lia|].
  split; [apply (safeClampInt_clamps (-7) 0); lia|].
  split; [apply (safeClampInt_clamps 1000 0); lia|].
  apply (safeClampInt_clamps (-7) 1000); lia.
Defined.

Lemma every_position (P : CRGB -> Prop) (out : list CRGB) :
  length out = NUM_LEDS ->
  (forall p, (p < NUM_LEDS)%nat -> P (led out (spiralAt p))) ->
  Forall P out.
Proof.
  intros Hlen H. unfold NUM_LEDS in *.
  do 21 (destruct out as [|? out]; [try discriminate Hlen|]); try discriminate Hlen.
  pose proof (H 0%nat ltac:(lia)) as H0. pose proof (H 1%nat ltac:(lia)) as H1.
  pose proof (H 2%nat ltac:(lia)) as H2. pose proof (H 3%nat ltac:(lia)) as H3.
  pose proof (H 4%nat ltac:(lia)) as H4. pose proof (H 5%nat ltac:(lia)) as H5.
  pose proof (H 6%nat ltac:(lia)) as H6. pose proof (H 7%nat ltac:(lia)) as H7.
  pose proof (H 8%nat ltac:(lia)) as H8. pose proof (H 9%nat ltac:(lia)) as H9.
  pose proof (H 10%nat ltac:(lia)) as H10. pose proof (H 11%nat ltac:(lia)) as H11.
  pose proof (H 12%nat ltac:(lia)) as H12. pose proof (H 13%nat ltac:(lia)) as H13.
  pose proof (H 14%nat ltac:(lia)) as H14. pose proof (H 15%nat ltac:(lia)) as H15.
  pose proof (H 16%nat ltac:(lia)) as H16. pose proof (H 17%nat ltac:(lia)) as H17.
  pose proof (H 18%nat ltac:(lia)) as H18. pose proof (H 19%nat ltac:(lia)) as H19.
  clear H Hlen. cbv [led spiralAt spiralOrder lookup list_lookup default id] in *.
  repeat constructor; assumption.
Qed.

(** X3: a frame never inherits anything from the buffer it is rendered
    into: two buffers of [NUM_LEDS] entries, whatever they hold, give the
    same frame for the same time and ramp multiplier. *)
Theorem frame_keeps_nothing_of_the_old_buffer
    (t rampMul : F) (l1 l2 : list CRGB) :
  length l1 = NUM_LEDS -> length l2 = NUM_LEDS ->
  renderFrame t rampMul l1 = renderFrame t rampMul l2.
Proof.
  intros H1 H2.
  rewrite (renderFrame_cleared t rampMul l1), (renderFrame_cleared t rampMul l2)
    by assumption.
  reflexivity.
Qed.

(** X4: the frame-rate gate works across the wrap of the 32-bit
    [millis()]: with the panic pin high, if [d] milliseconds (less than
    2^32) have passed since the last frame, a pass with [d < FRAME_MS]
    changes nothing and shows nothing, and a pass with [d >= FRAME_MS]
    records the new time and hands exactly one buffer to the strip. *)
Theorem frame_gate_across_wraparound (m : Machine) (i : Input) (d : Z) :
  pc m = Running -> pin_low i = false ->
  0 <= d < 2 ^ 32 ->
  now_ms i mod 2 ^ 32 = (lastFrameMs m + d) mod 2 ^ 32 ->
  (d < FRAME_MS ->
     step i m = (m, [EvDigitalRead PANIC_PIN false; EvMillis (now_ms i)])) /\
  (FRAME_MS <= d ->
     lastFrameMs (fst (step i m)) = now_ms i mod 2 ^ 32 /\
     length (shown (snd (step i m))) = 1%nat).
Proof.
  intros Hpc Hlow Hd Hnow.
  assert ((now_ms i mod 2 ^ 32 - lastFrameMs m) mod 2 ^ 32 = d) as Hdiff.
  { rewrite Hnow, Zminus_mod_idemp_l.
    replace (lastFrameMs m + d - lastFrameMs m) with d by lia.
    apply Z.mod_small. lia. }
  split; intros Hcmp.
  - apply step_skip; try assumption.
    unfold frame_due. rewrite Hdiff.
    destruct (Z.ltb_spec d FRAME_MS); [reflexivity|lia].
  - assert (frame_due m i = true) as Hdue.
    { unfold frame_due. rewrite Hdiff.
      destruct (Z.ltb_spec d FRAME_MS); [lia|reflexivity]. }
    destruct (past_limit (elapsed m i)) eqn:Hpast;
      [destruct (fade_done (elapsed m i)) eqn:Hfade|].
    + rewrite step_halt by assumption. split; reflexivity.
    + rewrite step_fade by assumption. split; reflexivity.
    + rewrite step_render by assumption. split; reflexivity.
Qed.

End BufferAndGate.

Lemma frame_keeps_nothing_witness :
  @renderFrame RealArith 100%R 1%R (replicate NUM_LEDS (mkCRGB 255 255 255)) =
  @renderFrame RealArith 100%R 1%R (replicate NUM_LEDS (mkCRGB 1 2 3)).
Proof.
  apply (@frame_keeps_nothing_of_the_old_buffer RealArith); reflexivity.
Defined.

Lemma frame_gate_across_wraparound_witness :
  let m := mkMachine allBlack 70 allBlack None (2 ^ 32 - 5) (0%R : @F RealArith) Running in
  step (mkInput false 2 0 None) m =
    (m, [EvDigitalRead PANIC_PIN false; EvMillis 2]) /\
  lastFrameMs (fst (step (mkInput false 7 0 None) m)) = 7.
Proof.
  cbv zeta. split.
  - apply (@frame_gate_across_wraparound RealArith
             (mkMachine allBlack 70 allBlack None (2 ^ 32 - 5) (0%R : @F RealArith) Running)
             (mkInput false 2 0 None) 7 eq_refl eq_refl);
      [lia|reflexivity|unfold FRAME_MS; lia].
  - apply (@frame_gate_across_wraparound RealArith
             (mkMachine allBlack 70 allBlack None (2 ^ 32 - 5) (0%R : @F RealArith) Running)
             (mkInput false 7 0 None) 12 eq_refl eq_refl);
      [lia|reflexivity|unfold FRAME_MS; lia].
Defined.

(** ** Further properties over exact real arithmetic *)

Section MoreRealValues.

Local Open Scope R_scope.

Ltac real_arith :=
  cbn [F lit of_int to_int fadd fsub fmul fdiv fopp flt fle sinf expf fabs
       fmodf TWO_PI RealArith] in *.

Lemma clamp01_range (x : R) : 0 <= @clamp01 RealArith x <= 1.
Proof.
  destruct (Rle_dec x 0); [rewrite clamp01_low by lra; lra|].
  destruct (Rle_dec x 1); [rewrite clamp01_mid by lra; lra|].
  rewrite clamp01_high by lra. lra.
Qed.

Lemma clamp01_monotone (x y : R) :
  x <= y -> @clamp01 RealArith x <= @clamp01 RealArith y.
Proof.
  intros Hxy.
  destruct (Rle_dec x 0).
  - rewrite (clamp01_low x) by lra. apply clamp01_range.
  - destruct (Rle_dec y 1).
    + rewrite !clamp01_mid by lra. lra.
    + rewrite (clamp01_high y) by lra. apply clamp01_range.
Qed.

(** X5: [clamp01] maps every real into [0,1], leaves the values of [0,1]
    as they are, keeps the order of its arguments and does nothing when
    applied twice. *)
Theorem clamp01_into_unit_interval (x y : R) :
  0 <= @clamp01 RealArith x <= 1 /\
  (0 <= x <= 1 -> @clamp01 RealArith x = x) /\
  (x <= y -> @clamp01 RealArith x <= @clamp01 RealArith y) /\
  @clamp01 RealArith (@clamp01 RealArith x) = @clamp01 RealArith x.
Proof.
  split; [apply clamp01_range|].
  split; [apply clamp01_mid|].
  split; [apply clamp01_monotone|].
  apply clamp01_mid, clamp01_range.
Qed.

Lemma clamp01_into_unit_interval_witness :
  @clamp01 RealArith (3 / 4)%R = 3 / 4 /\
  @clamp01 RealArith (- 2)%R <= @clamp01 RealArith 5%R.
Proof.
  split.
  - apply (clamp01_into_unit_interval (3 / 4) 0). lra.
  - apply (clamp01_into_unit_interval (- 2) 5). lra.
Defined.

(** X6: with ordered bounds [clamp] returns a value between them and is
    the identity on values already between them; with the bounds the wrong
    way round a value under both comes back as the lower argument, above
    the upper one. *)
Theorem clamp_between_bounds (v lo hi : R) :
  (lo <= hi ->
     lo <= @clamp RealArith v lo hi <= hi /\
     (lo <= v <= hi -> @clamp RealArith v lo hi = v)) /\
  (hi < lo -> v < lo ->
     @clamp RealArith v lo hi = lo /\ hi < @clamp RealArith v lo hi).
Proof.
  unfold clamp. real_arith. unfold Rltb.
  split.
  - intros Hle. split; [|intros Hv];
      repeat destruct (Rlt_dec _ _); lra.
  - intros Hinv Hv. destruct (Rlt_dec v lo); [lra|contradiction].
Qed.

Lemma clamp_between_bounds_witness :
  4 <= @clamp RealArith 2%R 4%R 8%R <= 8 /\
  @clamp RealArith 5%R 4%R 8%R = 5 /\
  @clamp RealArith 5%R 10%R 0%R = 10.
Proof.
  split; [apply (clamp_between_bounds 2 4 8); lra|].
  split; [apply (clamp_between_bounds 5 4 8); lra|].
  apply (clamp_between_bounds 5 10 0); lra.
Defined.

(** X7: both sinusoidal modulations compute the same value, which lies in
    [0,1] whatever the time and the frequency. *)
Theorem sinusoidal_modulation_range (t f : R) :
  0 <= @sinModSmooth RealArith t f <= 1 /\
  @sinModSmooth RealArith t f = @sinMod RealArith t f.
Proof.
  unfold sinModSmooth, sinMod, f1. cbv zeta. real_arith.
  pose proof (SIN_bound (2 * PI * (t * f))).
  repeat split; lra.
Qed.

(** X8: for a phase and a sharpness that are not negative the exponential
    pulse lies in (0,1], is 1 at phase 0, and does not grow with the
    phase. *)
Theorem exponential_pulse_decays (p q s : R) :
  0 <= s -> 0 <= p -> p <= q ->
  0 < @expPulse RealArith p s <= 1 /\
  @expPulse RealArith 0%R s = 1 /\
  @expPulse RealArith q s <= @expPulse RealArith p s.
Proof.
  intros Hs Hp Hpq. unfold expPulse. real_arith.
  assert (forall x y, x <= y -> exp x <= exp y) as Hmono.
  { intros x y Hxy. destruct Hxy as [Hlt|Heq].
    - left. now apply exp_increasing.
    - right. now rewrite Heq. }
  repeat split.
  - apply exp_pos.
  - rewrite <- exp_0. apply Hmono. nra.
  - rewrite <- exp_0. f_equal. lra.
  - apply Hmono. nra.
Qed.

Lemma exponential_pulse_witness :
  0 < @expPulse RealArith (1 / 2)%R (25 / 10)%R <= 1 /\
  @expPulse RealArith (3 / 4)%R (25 / 10)%R <= @expPulse RealArith (1 / 2)%R (25 / 10)%R.
Proof.
  split.
  - apply (exponential_pulse_decays (1 / 2) (1 / 2) (25 / 10)); lra.
  - apply (exponential_pulse_decays (1 / 2) (3 / 4) (25 / 10)); lra.
Defined.

(** X9: whatever the position, the time and the speed, the spiral mask
    lies between its baseline 0.2 and 1: no position is ever fully dark. *)
Theorem spiral_mask_never_dark (i : nat) (t speed : R) :
  2 / 10 <= @spiralMask RealArith i t speed <= 1.
Proof.
  unfold spiralMask, f1. cbv zeta. real_arith.
  set (d := Rabs _). assert (0 <= d) as Hd by apply Rabs_pos.
  unfold Rltb. destruct (Rlt_dec (5 / 10) d) as [Hfar|Hnear].
  - destruct (Rle_dec 1 (1 / 1 - (1 / 1 - d) * (2 / 1) + 2 / 10)).
    + rewrite clamp01_high by lra. lra.
    + rewrite clamp01_mid by lra. lra.
  - destruct (Rle_dec 1 (1 / 1 - d * (2 / 1) + 2 / 10)).
    + rewrite clamp01_high by lra. lra.
    + rewrite clamp01_mid by lra. lra.
Qed.

(** X10: the radial and the interference mask lie in [0,1] already before
    their final [clamp01], which therefore never cuts: each mask equals its
    raised sinusoid. *)
Theorem wave_masks_stay_in_unit_interval (i : nat) (t f fL fR : R) (petals : Z) :
  let pos := IZR (Z.of_nat i) / IZR (Z.of_nat NUM_LEDS) in
  0 <= @radialMask RealArith i t f petals <= 1 /\
  @radialMask RealArith i t f petals =
    5 / 10 * (sin (2 * PI * (t * f + pos * IZR petals)) + 1) /\
  0 <= @interferenceMask RealArith i t fL fR <= 1 /\
  @interferenceMask RealArith i t fL fR =
    (sin (2 * PI * (t * fL + pos)) + sin (2 * PI * (t * fR - pos))) * (25 / 100)
    + 5 / 10.
Proof.
  intros pos. subst pos.
  unfold radialMask, interferenceMask, f1. cbv zeta. real_arith.
  pose proof (SIN_bound (2 * PI * (t * f + IZR (Z.of_nat i) / IZR (Z.of_nat NUM_LEDS) * IZR petals))).
  pose proof (SIN_bound (2 * PI * (t * fL + IZR (Z.of_nat i) / IZR (Z.of_nat NUM_LEDS)))).
  pose proof (SIN_bound (2 * PI * (t * fR - IZR (Z.of_nat i) / IZR (Z.of_nat NUM_LEDS)))).
  rewrite !clamp01_mid by lra.
  repeat split; lra.
Qed.

(** *** Colours *)

Lemma Rtrunc_IZR (z : Z) : (0 <= z)%Z -> Rtrunc (IZR z) = z.
Proof. intros Hz. apply IZR_le in Hz. apply Rtrunc_nonneg; lra. Qed.

Lemma Rtrunc_bounds (x : R) (n : Z) :
  0 <= x <= IZR n -> (0 <= Rtrunc x <= n)%Z.
Proof.
  intros Hx. unfold Rtrunc. destruct (Rle_dec 0 x); [|lra].
  pose proof (base_Int_part x) as [Hlo Hhi]. split.
  - assert (-1 < Int_part x)%Z; [|lia]. apply lt_IZR. lra.
  - apply le_IZR. lra.
Qed.

Lemma Rtrunc_monotone (x y : R) :
  0 <= x -> x <= y -> (Rtrunc x <= Rtrunc y)%Z.
Proof.
  intros Hx Hxy. unfold Rtrunc.
  destruct (Rle_dec 0 x); [|lra]. destruct (Rle_dec 0 y); [|lra].
  pose proof (base_Int_part x) as [Hx1 _].
  pose proof (base_Int_part y) as [_ Hy2].
  assert (Int_part x < Int_part y + 1)%Z; [|lia].
  apply lt_IZR. rewrite plus_IZR. lra.
Qed.

Lemma safeClampInt_id (v : Z) : (0 <= v <= 255)%Z -> safeClampInt v = v.
Proof.
  intros Hv. unfold safeClampInt. rewrite Z.gtb_ltb.
  destruct (Z.ltb_spec v 0); [lia|]. destruct (Z.ltb_spec 255 v); [lia|].
  reflexivity.
Qed.

(** X11: mixing two byte colours gives a byte colour for every weight;
    weight 0 returns the first colour and weight 1 the second. *)
Theorem mixColor_endpoints (a b : CRGB) (w : R) :
  is_byte_colour a -> is_byte_colour b ->
  is_byte_colour (@mixColor RealArith a b w) /\
  @mixColor RealArith a b 0%R = a /\
  @mixColor RealArith a b 1%R = b.
Proof.
  intros (Ha1 & Ha2 & Ha3) (Hb1 & Hb2 & Hb3).
  split; [repeat split; apply safeClampInt_byte|].
  destruct a as [ar ag ab], b as [br bg bb]. cbn [red green blue] in *.
  unfold mixColor, f1. real_arith. cbn [red green blue].
  split; f_equal;
    match goal with
    | |- safeClampInt (Rtrunc ?e) = ?z =>
        replace e with (IZR z) by lra;
        rewrite Rtrunc_IZR by lia; apply safeClampInt_id; lia
    end.
Qed.

Lemma mixColor_endpoints_witness :
  @mixColor RealArith (mkCRGB 255 120 40) (mkCRGB 40 130 255) 0%R = mkCRGB 255 120 40 /\
  @mixColor RealArith (mkCRGB 255 120 40) (mkCRGB 40 130 255) 1%R = mkCRGB 40 130 255.
Proof.
  destruct (mixColor_endpoints (mkCRGB 255 120 40) (mkCRGB 40 130 255) 0)
    as (_ & H0 & H1).
  - repeat split; cbn; lia.
  - repeat split; cbn; lia.
  - split; assumption.
Defined.

(** X12: the theta colour is black at intensity 0 and the full warm
    (left) or cool (right) colour at intensity 1; in between no channel
    exceeds that of the full colour. *)
Theorem getThetaColor_endpoints (x : R) (isLeft : bool) :
  let full := if isLeft then mkCRGB 255 120 40 else mkCRGB 40 130 255 in
  @getThetaColor RealArith 0%R isLeft = Black /\
  @getThetaColor RealArith 1%R isLeft = full /\
  (0 <= x <= 1 ->
     (0 <= red (@getThetaColor RealArith x isLeft) <= red full)%Z /\
     (0 <= green (@getThetaColor RealArith x isLeft) <= green full)%Z /\
     (0 <= blue (@getThetaColor RealArith x isLeft) <= blue full)%Z).
Proof.
  cbv zeta. unfold getThetaColor. real_arith.
  split; [|split].
  - destruct isLeft; unfold Black; f_equal;
      match goal with
      | |- safeClampInt (Rtrunc ?e) = _ =>
          replace e with (IZR 0) by lra; rewrite Rtrunc_IZR by lia; reflexivity
      end.
  - destruct isLeft; f_equal;
      match goal with
      | |- safeClampInt (Rtrunc ?e) = ?z =>
          replace e with (IZR z) by lra; rewrite Rtrunc_IZR by lia; reflexivity
      end.
  - intros Hx. destruct isLeft; cbn [red green blue];
      repeat split;
      match goal with
      | |- (_ <= safeClampInt _)%Z => apply safeClampInt_byte
      | |- (safeClampInt (Rtrunc (IZR ?c * x)) <= _)%Z =>
          let H := fresh in
          assert (0 <= Rtrunc (IZR c * x) <= c)%Z as H
            by (apply Rtrunc_bounds; nra);
          rewrite safeClampInt_id by lia; lia
      end.
Qed.

Lemma getThetaColor_endpoints_witness :
  (0 <= red (@getThetaColor RealArith (1 / 2)%R true) <= 255)%Z /\
  (0 <= blue (@getThetaColor RealArith (1 / 2)%R false) <= 255)%Z.
Proof.
  split.
  - apply (getThetaColor_endpoints (1 / 2) true). lra.
  - apply (getThetaColor_endpoints (1 / 2) false). lra.
Defined.

(** *** Brightness *)

Lemma fadeFrac_range (t : R) : 0 <= @fadeFrac RealArith t <= 1.
Proof. unfold fadeFrac. apply clamp01_range. Qed.

Lemma fadeFrac_antitone (t1 t2 : R) :
  t1 <= t2 -> @fadeFrac RealArith t2 <= @fadeFrac RealArith t1.
Proof.
  intros H. unfold fadeFrac, MAX_SESSION_SECONDS, f1. real_arith.
  apply clamp01_monotone. lra.
Qed.

Lemma fadeBrightness_eq (t : R) :
  @fadeBrightness RealArith t =
    Rtrunc (70 * (@fadeFrac RealArith t * @fadeFrac RealArith t)) /\
  (0 <= @fadeBrightness RealArith t <= 70)%Z.
Proof.
  unfold fadeBrightness, GLOBAL_BRIGHTNESS, to_u8. real_arith.
  pose proof (fadeFrac_range t) as Hf.
  assert (0 <= Rtrunc (70 * (@fadeFrac RealArith t * @fadeFrac RealArith t)) <= 70)%Z as Hb
    by (apply Rtrunc_bounds; nra).
  rewrite Z.mod_small by lia. split; [reflexivity|exact Hb].
Qed.

(** X13: the brightness handed to FastLED is never above
    [GLOBAL_BRIGHTNESS]: in every machine the firmware can reach it lies
    in 0..70. *)
Theorem brightness_never_exceeds_the_ceiling (m : @Machine RealArith) :
  reachable m -> (0 <= brightness m <= GLOBAL_BRIGHTNESS)%Z.
Proof.
  induction 1 as [b|m i _ IH].
  - rewrite boot_eq. cbn [fst brightness]. unfold GLOBAL_BRIGHTNESS. lia.
  - destruct (pc m) eqn:Hpc.
    + destruct (step_cases i m Hpc)
        as [H|[[H1 H2]|[(H1 & H2 & H3 & H4)|[(H1 & H2 & H3 & H4)|(H1 & H2 & H3)]]]].
      * now rewrite step_panic by assumption.
      * now rewrite step_skip by assumption.
      * now rewrite step_halt by assumption.
      * rewrite step_fade by assumption. cbn [fst brightness].
        apply fadeBrightness_eq.
      * now rewrite step_render by assumption.
    + now rewrite step_panicSpin by assumption.
    + now rewrite step_haltedSpin by assumption.
Qed.

Lemma brightness_ceiling_witness :
  let m := fst (step (mkInput false 100 1805000000 None)
                  (fst (@boot RealArith (mkInput false 0 0 None)))) in
  reachable m /\ (0 <= brightness m <= GLOBAL_BRIGHTNESS)%Z.
Proof.
  cbv zeta.
  pose proof (@reach_step RealArith _ (mkInput false 100 1805000000 None)
                (reach_boot (mkInput false 0 0 None))) as Hreach.
  split; [exact Hreach|].
  exact (brightness_never_exceeds_the_ceiling _ Hreach).
Defined.

(** X14: the brightness of the fade never rises with time; from the first
    instant past the session limit it is below the ceiling, at most 69;
    and from 1813.21 seconds on it is 0, so the strip is dark before the
    session halts at 1814.85 seconds. *)
Theorem fade_brightness_profile (t1 t2 : R) :
  (t1 <= t2 -> (@fadeBrightness RealArith t2 <= @fadeBrightness RealArith t1)%Z) /\
  (1800 < t1 -> (@fadeBrightness RealArith t1 <= 69)%Z) /\
  (181321 / 100 <= t1 -> @fadeBrightness RealArith t1 = 0%Z).
Proof.
  split; [|split].
  - intros Hle.
    destruct (fadeBrightness_eq t1) as [-> _]. destruct (fadeBrightness_eq t2) as [-> _].
    pose proof (fadeFrac_range t1). pose proof (fadeFrac_range t2).
    pose proof (fadeFrac_antitone t1 t2 Hle).
    apply Rtrunc_monotone; nra.
  - intros Hpast. destruct (fadeBrightness_eq t1) as [-> _].
    pose proof (fadeFrac_range t1) as Hf.
    assert (@fadeFrac RealArith t1 < 1) as Hlt.
    { destruct (Rle_dec t1 1815).
      - rewrite fadeFrac_fading by lra. lra.
      - rewrite fadeFrac_over by lra. lra. }
    assert (0 <= Rtrunc (70 * (@fadeFrac RealArith t1 * @fadeFrac RealArith t1)) <= 70)%Z
      as Hb by (apply Rtrunc_bounds; nra).
    assert (Rtrunc (70 * (@fadeFrac RealArith t1 * @fadeFrac RealArith t1)) <> 70%Z); [|lia].
    intros Heq. unfold Rtrunc in Heq.
    destruct (Rle_dec 0 (70 * (@fadeFrac RealArith t1 * @fadeFrac RealArith t1))); [|nra].
    pose proof (base_Int_part (70 * (@fadeFrac RealArith t1 * @fadeFrac RealArith t1))) as [Hlo _].
    rewrite Heq in Hlo. nra.
  - intros Hlate. destruct (fadeBrightness_eq t1) as [-> _].
    apply Rtrunc_nonneg.
    + destruct (Rle_dec t1 1815).
      * rewrite fadeFrac_fading by lra. nra.
      * rewrite fadeFrac_over by lra. lra.
    + pose proof (fadeFrac_range t1). nra.
Qed.

Lemma fade_brightness_profile_witness :
  (@fadeBrightness RealArith 1810%R <= @fadeBrightness RealArith 1805%R)%Z /\
  (@fadeBrightness RealArith 1801%R <= 69)%Z /\
  @fadeBrightness RealArith 1814%R = 0%Z.
Proof.
  split; [apply (fade_brightness_profile 1805 1810); lra|].
  split; [apply (fade_brightness_profile 1801 1801); lra|].
  apply (fade_brightness_profile 1814 1814); lra.
Defined.

(** X15: the fade window is a hard cap.  A pass that gets to evaluate the
    session limit 1815 seconds or more into the session renders nothing:
    it blacks the strip and ends in the halted loop; so every frame that
    is rendered is for a session time below 1815 seconds. *)
Theorem no_frame_after_the_fade (m : @Machine RealArith) (i : Input) :
  (pc m = Running -> pin_low i = false -> frame_due m i = true ->
   1815 <= elapsed m i ->
     pc (fst (step i m)) = HaltedSpin /\
     shown (snd (step i m)) = [(allBlack, brightness m)]) /\
  (renders m i = true -> elapsed m i < 1815).
Proof.
  split.
  - intros Hpc Hlow Hdue Ht.
    rewrite step_halt; try assumption.
    + split; reflexivity.
    + apply past_limit_true. lra.
    + apply fade_done_true. lra.
  - unfold renders. destruct (pc m); try discriminate.
    intros Hr. apply andb_true_iff in Hr as [_ Hnot].
    apply negb_true_iff in Hnot.
    destruct (Rlt_dec (elapsed m i) 1815) as [|Hge]; [assumption|].
    rewrite past_limit_true, fade_done_true in Hnot by lra. discriminate.
Qed.

Lemma no_frame_after_the_fade_witness :
  let m := fst (@boot RealArith (mkInput false 0 0 None)) in
  let i := mkInput false 1816000 1816000000 None in
  pc (fst (step i m)) = HaltedSpin /\
  shown (snd (step i m)) = [(allBlack, brightness m)].
Proof.
  cbv zeta.
  apply (no_frame_after_the_fade
           (fst (@boot RealArith (mkInput false 0 0 None)))
           (mkInput false 1816000 1816000000 None));
    try reflexivity.
  rewrite elapsed_after_boot. cbn [timer_micros]. lra.
Defined.

(** *** Amplitudes and the first frame *)

Lemma rampMulOf_range (t : R) : 0 <= @rampMulOf RealArith t <= 1.
Proof.
  destruct (Rle_dec t 0); [rewrite rampMulOf_zero by lra; lra|].
  destruct (Rle_dec t 180); [|rewrite rampMulOf_full by lra; lra].
  rewrite rampMulOf_ramp by lra. apply smoothstep_range. lra.
Qed.

Lemma amplitude_under_ramp (a rm b : R) :
  0 <= a <= 1 -> 0 <= rm <= 1 -> 7 / 10 <= b <= 1 ->
  0 <= @clamp01 RealArith (a * (1 / 1) * rm * b)%R <= rm.
Proof.
  intros Ha Hrm Hb.
  assert (0 <= a * rm <= rm) as H1 by nra.
  assert (0 <= a * rm * b <= rm) as H2.
  { split.
    - apply Rmult_le_pos; lra.
    - assert (a * rm * b <= a * rm * 1) by (apply Rmult_le_compat_l; lra). lra. }
  replace (a * (1 / 1) * rm * b) with (a * rm * b) by field.
  rewrite clamp01_mid by lra. exact H2.
Qed.

(** X16: in every frame both final amplitudes lie between 0 and the ramp
    multiplier of the safety envelope, which itself lies in [0,1]: neither
    the modulation nor the breathing envelope can lift a channel above the
    ramp. *)
Theorem amplitudes_stay_under_the_ramp (t : R) :
  let rampMul := @rampMulOf RealArith t in
  0 <= rampMul <= 1 /\
  0 <= fst (@finalAmps RealArith t rampMul) <= rampMul /\
  0 <= snd (@finalAmps RealArith t rampMul) <= rampMul.
Proof.
  cbv zeta. pose proof (rampMulOf_range t) as Hrm.
  split; [exact Hrm|].
  unfold finalAmps, USE_SINUSOIDAL_MODULATION, MICRO_ENABLED.
  cbv beta iota zeta. cbn [fst snd].
  unfold sinModSmooth, f1. cbv zeta. real_arith.
  pose proof (SIN_bound (2 * PI * (t * @LEFT_FREQ_HZ RealArith))).
  pose proof (SIN_bound (2 * PI * (t * @RIGHT_FREQ_HZ RealArith))).
  pose proof (SIN_bound (2 * PI * @BREATH_FREQ_HZ RealArith * t)).
  split; apply amplitude_under_ramp; lra.
Qed.

Lemma scaled_zero (c : CRGB) (a : R) : a = 0 -> @scaled RealArith c a = Black.
Proof.
  intros ->. unfold scaled. real_arith. rewrite !Rmult_0_r.
  rewrite (Rtrunc_IZR 0) by lia. reflexivity.
Qed.

Lemma finalAmps_zero (t : R) : @finalAmps RealArith t 0%R = (0, 0).
Proof.
  unfold finalAmps, USE_SINUSOIDAL_MODULATION, MICRO_ENABLED.
  cbv beta iota zeta. real_arith.
  rewrite !Rmult_0_r, !Rmult_0_l, clamp01_mid by lra. reflexivity.
Qed.

Lemma bodyRGB_zero (t : R) (mode : Z) (p : nat) :
  @bodyRGB RealArith t mode 0%R 0%R p = (0, 0, 0)%Z.
Proof.
  unfold bodyRGB. cbv zeta. real_arith.
  rewrite !Rmult_0_r, !Rplus_0_r, !Rmult_0_r.
  rewrite (clamp01_mid 0) by lra. rewrite !Rmult_0_r.
  rewrite (Rtrunc_IZR 0) by lia. reflexivity.
Qed.

Lemma echoOf_zero : @echoOf RealArith 0 = 0%Z.
Proof.
  unfold echoOf. real_arith. rewrite Rmult_0_l.
  rewrite (Rtrunc_IZR 0) by lia. reflexivity.
Qed.

Lemma submittedPixel_zero (t : R) (p : nat) :
  @submittedPixel RealArith t 0%R p = Black.
Proof.
  unfold submittedPixel. rewrite finalAmps_zero.
  destruct (p <? 2)%nat.
  - unfold centerPixel. cbv zeta. real_arith.
    apply scaled_zero. rewrite clamp01_mid by lra. lra.
  - rewrite !bodyRGB_zero. destruct (p <? NUM_LEDS - 2)%nat; [reflexivity|].
    unfold rightCorePixel. cbv zeta. real_arith.
    rewrite scaled_zero by lra.
    unfold withEcho. rewrite echoOf_zero. reflexivity.
Qed.

(** X17: the session starts dark: for an elapsed time of 0 (or below) the
    rendered frame is all black. *)
Theorem session_starts_dark (t : R) :
  t <= 0 -> @frameLeds RealArith t = allBlack.
Proof.
  intros Ht. unfold frameLeds. rewrite rampMulOf_zero by assumption.
  symmetry. apply replicate_as_Forall. split.
  - now rewrite renderFrame_length.
  - apply every_position; [now rewrite renderFrame_length|].
    intros p Hp. rewrite renderFrame_at by (reflexivity || assumption).
    now rewrite submittedPixel_zero.
Qed.

Lemma session_starts_dark_witness : @frameLeds RealArith 0%R = allBlack.
Proof. apply (session_starts_dark 0). lra. Defined.

(** X18: from elapsed time 0 on the mandala mode is 0, 1 or 2, and it
    comes round again every 90 seconds. *)
Theorem mandala_mode_cycles (t : R) :
  0 <= t ->
  (0 <= @mandalaModeOf RealArith t <= 2)%Z /\
  @mandalaModeOf RealArith (t + 90)%R = @mandalaModeOf RealArith t.
Proof.
  intros Ht.
  pose proof (base_Int_part (t / 30)) as [Hlo Hhi].
  assert (0 <= Int_part (t / 30))%Z as Hk.
  { assert (-1 < Int_part (t / 30))%Z; [|lia]. apply lt_IZR. lra. }
  rewrite (mandalaModeOf_eq t (Int_part (t / 30))) by (lia || lra).
  rewrite (mandalaModeOf_eq (t + 90) (Int_part (t / 30) + 3))
    by (lia || (rewrite plus_IZR; lra)).
  rewrite !Z.rem_mod_nonneg by lia. split.
  - pose proof (Z.mod_pos_bound (Int_part (t / 30)) 3). lia.
  - replace (Int_part (t / 30) + 3)%Z with (Int_part (t / 30) + 1 * 3)%Z by lia.
    apply Z_mod_plus_full.
Qed.

Lemma mandala_mode_cycles_witness :
  (0 <= @mandalaModeOf RealArith 45%R <= 2)%Z /\
  @mandalaModeOf RealArith (45 + 90)%R = @mandalaModeOf RealArith 45%R.
Proof. apply (mandala_mode_cycles 45). lra. Defined.

(** *** The session clock *)

Lemma counter_monotone_last (mu : Z) (ins : list Input) :
  counter_monotone mu ins -> (mu <= last_counter mu ins)%Z.
Proof.
  revert mu. induction ins as [|j ins IH]; intros mu H.
  - cbn. lia.
  - destruct H as [H1 H2]. apply IH in H2.
    change (last_counter mu (j :: ins)) with (last_counter (timer_micros j) ins).
    lia.
Qed.

Lemma elapsed_in_run (b : Input) (ins : list Input) (i : Input) :
  counter_monotone (timer_micros b) (ins ++ [i]) ->
  @elapsed RealArith (fst (run b ins)) i =
    (IZR (timer_micros i) - IZR (timer_micros b)) / 1000000 /\
  0 <= @elapsed RealArith (fst (run b ins)) i.
Proof.
  intros Hmono. apply counter_monotone_app in Hmono as [Hmono Hlast].
  pose proof (counter_monotone_last _ _ Hmono) as Hfirst.
  pose proof (brightness_tracks_run_from _ _ _ _ (boot_brightness_tracks b) Hmono)
    as (HtS & _).
  rewrite <- run_fst in HtS.
  unfold elapsed. rewrite HtS. unfold getTimeSeconds. real_arith.
  assert (IZR (timer_micros b) <= IZR (timer_micros i)) by (apply IZR_le; lia).
  split; lra.
Qed.

(** X19: the session clock starts at [setup()] and nothing moves its
    origin: after any passes, the elapsed time a pass computes is the
    reading of the counter now minus the reading [setup()] stored; over a
    counter that never runs backwards it is never negative. *)
Theorem session_clock_counts_from_setup (b : Input) (ins : list Input) (i : Input) :
  counter_monotone (timer_micros b) (ins ++ [i]) ->
  @tStart RealArith (fst (run b ins)) = getTimeSeconds (timer_micros b) /\
  @elapsed RealArith (fst (run b ins)) i =
    (getTimeSeconds (timer_micros i) - getTimeSeconds (timer_micros b))%flt /\
  0 <= @elapsed RealArith (fst (run b ins)) i.
Proof.
  intros Hmono. destruct (elapsed_in_run b ins i Hmono) as [_ Hpos].
  apply counter_monotone_app in Hmono as [Hmono _].
  pose proof (brightness_tracks_run_from _ _ _ _ (boot_brightness_tracks b) Hmono)
    as (HtS & _).
  rewrite <- run_fst in HtS.
  split; [exact HtS|]. split; [|exact Hpos].
  unfold elapsed. now rewrite HtS.
Qed.

Lemma session_clock_witness :
  let m := fst (@run RealArith (mkInput false 0 7000000 None)
                  [mkInput true 5 8000000 None]) in
  let i := mkInput false 9 9500000 None in
  tStart m = getTimeSeconds 7000000 /\ 0 <= elapsed m i.
Proof.
  cbv zeta.
  destruct (session_clock_counts_from_setup (mkInput false 0 7000000 None)
              [mkInput true 5 8000000 None] (mkInput false 9 9500000 None))
    as (H1 & _ & H3).
  - cbn. lia.
  - split; [exact H1|exact H3].
Defined.

Lemma getEnhancedPhase_unit (t f s : R) :
  0 <= t * f -> s <= 1 / 2 -> 0 <= @getEnhancedPhase RealArith t f s < 1.
Proof.
  intros Htf Hs. unfold getEnhancedPhase. cbv zeta.
  pose proof (phaseOf_range t f Htf) as Hbase.
  unfold USE_PHASE_ENHANCEMENT, f0, f1. real_arith. cbn [andb].
  unfold Rltb. destruct (Rlt_dec (0 / 1) s) as [Hpos|Hneg]; [|assumption].
  apply Rfmod_one_range. apply sin_two_pi_lower; lra.
Qed.

(** X20: over a counter that never runs backwards, the two enhanced
    phases a pass computes for its elapsed time (lines 340-341) both lie
    in [0,1). *)
Theorem frame_phases_are_in_range (b : Input) (ins : list Input) (i : Input) :
  counter_monotone (timer_micros b) (ins ++ [i]) ->
  let t := @elapsed RealArith (fst (run b ins)) i in
  0 <= @getEnhancedPhase RealArith t LEFT_FREQ_HZ PHASE_SYNC_STRENGTH < 1 /\
  0 <= @getEnhancedPhase RealArith t RIGHT_FREQ_HZ PHASE_SYNC_STRENGTH < 1.
Proof.
  intros Hmono t. subst t.
  destruct (elapsed_in_run b ins i Hmono) as [_ Ht].
  unfold LEFT_FREQ_HZ, RIGHT_FREQ_HZ, PHASE_SYNC_STRENGTH. real_arith.
  split; apply getEnhancedPhase_unit; nra.
Qed.

Lemma frame_phases_witness :
  let t := @elapsed RealArith
             (fst (run (mkInput false 0 7000000 None) [mkInput true 5 8000000 None]))
             (mkInput false 9 9500000 None) in
  0 <= @getEnhancedPhase RealArith t LEFT_FREQ_HZ PHASE_SYNC_STRENGTH < 1.
Proof.
  cbv zeta.
  apply (frame_phases_are_in_range (mkInput false 0 7000000 None)
           [mkInput true 5 8000000 None] (mkInput false 9 9500000 None)).
  cbn. lia.
Defined.

End MoreRealValues.

(** ** The safety envelope, pass by pass *)

Section SafetyEnvelope.

Local Open Scope R_scope.

Lemma past_limit_iff (t : R) : @past_limit RealArith t = true <-> 1800 < t.
Proof.
  split; [|apply past_limit_true].
  intros H. destruct (Rlt_dec 1800 t) as [|Hn]; [assumption|].
  rewrite past_limit_false in H by lra. discriminate.
Qed.

Lemma fade_done_iff (t : R) :
  1800 < t -> (@fade_done RealArith t = true <-> 181485 / 100 <= t).
Proof.
  intros Hp. split; [|apply fade_done_true].
  intros H. destruct (Rle_dec (181485 / 100) t) as [|Hn]; [assumption|].
  rewrite fade_done_false in H by lra. discriminate.
Qed.

(** C3, as the code has it.  The envelope consists of two factors, both
    recomputed by every pass that gets past the frame-rate gate: the ramp
    multiplier, applied to the amplitudes of the frame, and the squared
    fade, applied to the global brightness.

    The pass: up to the session limit it shows the frame rendered with
    the ramp multiplier at the brightness in force; past the limit, while
    the fade is above 0.01, it shows the frame at brightness
    [(uint8_t)(70 * fade * fade)], the ramp multiplier being 1; once the
    fade is at or below 0.01 it shows an all-black buffer instead and ends
    in the halted loop.

    The factors: the ramp multiplier lies in [0,1], is 0 up to time 0,
    is strictly larger at any time of the ramp than a second or more
    earlier, and is exactly 1 from 180 seconds on.  The fade lies in
    [0,1]; over the 15 seconds after the limit its clamp is idle; it is
    at or below 0.01 exactly from 1814.85 seconds on, which is before the
    end of the fade window; until then its square falls strictly. *)
Theorem safety_envelope_profile (m : @Machine RealArith) (i : Input) (t1 t2 : R) :
  (pc m = Running -> pin_low i = false -> frame_due m i = true ->
   let t := elapsed m i in
   let out := renderFrame t (rampMulOf t) (leds m) in
   (past_limit t = false ->
      pc (fst (step i m)) = Running /\
      shown (snd (step i m)) = [(out, brightness m)]) /\
   (past_limit t = true -> fade_done t = false ->
      pc (fst (step i m)) = Running /\
      shown (snd (step i m)) = [(out, fadeBrightness t)] /\
      fadeBrightness t = Rtrunc (70 * (fadeFrac t * fadeFrac t)) /\
      rampMulOf t = 1) /\
   (past_limit t = true -> fade_done t = true ->
      pc (fst (step i m)) = HaltedSpin /\
      shown (snd (step i m)) = [(allBlack, brightness m)])) /\
  0 <= @rampMulOf RealArith t1 <= 1 /\
  (t1 <= 0 -> @rampMulOf RealArith t1 = 0) /\
  (0 <= t1 -> t1 + 1 <= t2 -> t2 <= 180 ->
     @rampMulOf RealArith t1 < @rampMulOf RealArith t2) /\
  (180 <= t1 -> @rampMulOf RealArith t1 = 1) /\
  (@past_limit RealArith t1 = true <-> 1800 < t1) /\
  0 <= @fadeFrac RealArith t1 <= 1 /\
  (1800 <= t1 <= 1815 ->
     @fadeFrac RealArith t1 = (f1 - (t1 - MAX_SESSION_SECONDS) / lit 15 1)%flt) /\
  (1800 < t1 -> (@fade_done RealArith t1 = true <-> 181485 / 100 <= t1)) /\
  (1800 < t1 -> t1 < t2 -> @fade_done RealArith t2 = false ->
     @fadeFrac RealArith t2 * @fadeFrac RealArith t2 <
     @fadeFrac RealArith t1 * @fadeFrac RealArith t1).
Proof.
  split.
  { intros Hpc Hlow Hdue t out. subst t out. split; [|split].
    - intros Hp. rewrite step_render by assumption. split; reflexivity.
    - intros Hp Hf. rewrite step_fade by assumption.
      split; [reflexivity|]. split; [reflexivity|].
      split; [apply fadeBrightness_eq|].
      apply rampMulOf_full. apply past_limit_iff in Hp. lra.
    - intros Hp Hf. rewrite step_halt by assumption. split; reflexivity. }
  split; [apply rampMulOf_range|].
  split; [apply rampMulOf_zero|].
  split.
  { intros H0 Hgap H180. rewrite !rampMulOf_ramp by lra.
    apply smoothstep_increasing; lra. }
  split; [apply rampMulOf_full|].
  split; [apply past_limit_iff|].
  split; [apply fadeFrac_range|].
  split.
  { intros Ht. unfold fadeFrac. apply clamp01_mid.
    unfold f1, MAX_SESSION_SECONDS.
    cbn [F lit fsub fdiv RealArith]. lra. }
  split; [apply fade_done_iff|].
  intros Hp Hlt Hf.
  assert (t2 < 181485 / 100) as Hend.
  { destruct (Rlt_dec t2 (181485 / 100)) as [|Hn]; [assumption|].
    rewrite fade_done_true in Hf by lra. discriminate. }
  rewrite !fadeFrac_fading by lra. nra.
Qed.

(** The scenario of the specification: ramp 180 s, limit 1800 s, fade
    15 s. *)
Example envelope_scenario :
  @rampMulOf RealArith 0 = 0 /\
  @rampMulOf RealArith 90 = 1 / 2 /\
  @rampMulOf RealArith 900 = 1 /\
  @fadeFrac RealArith 1805 * @fadeFrac RealArith 1805 = 4 / 9 /\
  @fade_done RealArith 1805 = false /\
  @fade_done RealArith 1816 = true.
Proof.
  split; [apply rampMulOf_zero; lra|].
  split; [rewrite rampMulOf_ramp by lra; lra|].
  split; [apply rampMulOf_full; lra|].
  split; [rewrite fadeFrac_fading by lra; lra|].
  split; [apply fade_done_false; lra|apply fade_done_true; lra].
Qed.

Lemma safety_envelope_profile_witness :
  let m := fst (@boot RealArith (mkInput false 0 0 None)) in
  let i := mkInput false 1805000 1805000000 None in
  let t := elapsed m i in
  pc (fst (step i m)) = Running /\
  shown (snd (step i m)) = [(frameLeds t, fadeBrightness t)] /\
  @rampMulOf RealArith 60 < @rampMulOf RealArith 90 /\
  @rampMulOf RealArith 900 = 1 /\
  @fadeFrac RealArith 1810 * @fadeFrac RealArith 1810 <
  @fadeFrac RealArith 1805 * @fadeFrac RealArith 1805.
Proof.
  cbv zeta.
  destruct (safety_envelope_profile
              (fst (@boot RealArith (mkInput false 0 0 None)))
              (mkInput false 1805000 1805000000 None) 60 90)
    as (Hpass & _ & _ & Hrise & _).
  destruct (safety_envelope_profile
              (fst (@boot RealArith (mkInput false 0 0 None)))
              (mkInput false 1805000 1805000000 None) 900 900)
    as (_ & _ & _ & _ & Hfull & _).
  destruct (safety_envelope_profile
              (fst (@boot RealArith (mkInput false 0 0 None)))
              (mkInput false 1805000 1805000000 None) 1805 1810)
    as (_ & _ & _ & _ & _ & _ & _ & _ & _ & Hfall).
  destruct (Hpass eq_refl eq_refl eq_refl) as (_ & Hfade & _).
  destruct Hfade as (Hpc & Hshown & _).
  - rewrite elapsed_after_boot. cbn [timer_micros]. apply past_limit_true. lra.
  - rewrite elapsed_after_boot. cbn [timer_micros]. apply fade_done_false. lra.
  - split; [exact Hpc|]. split; [exact Hshown|].
    split; [apply Hrise; lra|]. split; [apply Hfull; lra|].
    apply Hfall; [lra|lra|apply fade_done_false; lra].
Defined.

(** Binary32 readings of the clock and of the envelope: the literal 0.01f,
    the time 1814.9000244140625 for the counter reading 1814900000, the
    fade 0.006665050983428955 at that time, and the ramp multiplier on
    either side of the reading from which it is 1. *)
Example binary32_readings (libm_sinf libm_expf : b32 -> b32) :
  let B := Binary32Arith libm_sinf libm_expf in
  @lit B 1 100 = S754_finite false 10737418 (-30) /\
  @getTimeSeconds B 1814900000 = S754_finite false 14867661 (-13) /\
  @fadeFrac B (@getTimeSeconds B 1814900000) = S754_finite false 14313088 (-31) /\
  @rampMulOf B (@getTimeSeconds B 179984400) = S754_finite false 16777215 (-24) /\
  @rampMulOf B (@getTimeSeconds B 179984500) = @f1 B.
Proof. vm_compute. repeat split. Qed.

(** C3, as stated, fails in two places.

    The fade window is cut short: a pass 1814.9 seconds into the session,
    inside the 15 seconds of the fade, finds the fade at 1/150, whose
    square is not 0, yet shows an all-black buffer and halts.  It does so
    in exact arithmetic and in binary32 alike.

    The ramp does not rise strictly from tick to tick.  In binary32, with
    the counter at 0 on start-up, the multiplier for the counter reading
    177123900 (177.1239 s) is below the one for 177123800 (177.1238 s),
    and for the reading 179990000 (179.99 s, before the end of the ramp)
    it is already exactly 1. *)
Lemma envelope_departs_from_the_stated_profile :
  (let m := fst (@boot RealArith (mkInput false 0 0 None)) in
   let i := mkInput false 1814900 1814900000 None in
   elapsed m i < 1800 + 15 /\
   fadeFrac (elapsed m i) * fadeFrac (elapsed m i) <> 0 /\
   pc (fst (step i m)) = HaltedSpin /\
   shown (snd (step i m)) = [(allBlack, GLOBAL_BRIGHTNESS)]) /\
  (forall libm_sinf libm_expf : b32 -> b32,
   let B := Binary32Arith libm_sinf libm_expf in
   let m := fst (@boot B (mkInput false 0 0 None)) in
   let i := mkInput false 1814900 1814900000 None in
   let ta := @elapsed B m (mkInput false 177123 177123800 None) in
   let tb := @elapsed B m (mkInput false 177123 177123900 None) in
   let tc := @elapsed B m (mkInput false 179990 179990000 None) in
   @flt B (@elapsed B m i) (@lit B 1815 1) = true /\
   pc (fst (step i m)) = HaltedSpin /\
   shown (snd (step i m)) = [(allBlack, GLOBAL_BRIGHTNESS)] /\
   @flt B ta tb = true /\
   @flt B tb (@RAMP_IN_SECONDS B) = true /\
   @flt B (@rampMulOf B tb) (@rampMulOf B ta) = true /\
   @flt B tc (@RAMP_IN_SECONDS B) = true /\
   @rampMulOf B tc = @f1 B).
Proof.
  split.
  - cbv zeta. rewrite elapsed_after_boot. cbn [timer_micros].
    split; [lra|]. split.
    + rewrite fadeFrac_fading by lra.
      apply Rmult_integral_contrapositive_currified; lra.
    + rewrite step_halt; [split; reflexivity|reflexivity..| |].
      * rewrite elapsed_after_boot. cbn [timer_micros]. apply past_limit_true. lra.
      * rewrite elapsed_after_boot. cbn [timer_micros]. apply fade_done_true. lra.
  - intros libm_sinf libm_expf. vm_compute. repeat split.
Qed.

End SafetyEnvelope.
